(** * VideoLingo: the WhisperX transcription driver

    A shallow embedding of [core/all_whisper_methods/whisperX.py]
    (functions [transcribe_audio] and [transcribe]) and the properties of
    its control logic: inference-parameter selection, the language check,
    the timestamp shift, error propagation, and the existence-based
    short-circuits of the coordinator.

    Timestamps are Python floats, so they are binary64 values here
    ([PrimFloat.float]); [+=] is [PrimFloat.add].  The external
    collaborators (whisperx, torch, ffmpeg, librosa, demucs and the helpers
    imported from [whisperXapi]) are not part of the file: each one is an
    oracle of the environment that may answer differently on every call
    and may raise. *)

From Stdlib Require Import ZArith Ascii String List Bool Floats Uint63 Lia.
From stdpp Require Import base option list gmap strings.

Local Open Scope Z_scope.
Local Open Scope string_scope.

(** ** Data model *)

(** A word dict of the aligner: ['word'] and, when the aligner could place
    the word, ['start'], ['end'] and ['score'].  An absent key is [None]. *)
Record Word := mkWord {
  word : string;
  w_start : option float;
  w_end : option float;
  w_score : option float;
}.

(** A segment dict of the aligner: ['start'], ['end'], ['text'], ['words']. *)
Record Segment := mkSegment {
  seg_start : float;
  seg_end : float;
  seg_text : string;
  words : list Word;
}.

(** A segment of [model.transcribe]'s result, before alignment. *)
Record RawSegment := mkRawSegment {
  raw_start : float;
  raw_end : float;
  raw_text : string;
}.

(** The dict returned by [model.transcribe]. *)
Record TranscribeResult := mkTranscribeResult {
  language : string;
  raw_segments : list RawSegment;
}.

(** The dict returned by [whisperx.align]; only ['segments'] is read by
    this file.  The aligner builds a fresh dict for each segment and each
    word, so the in-place update of lines 102-109 reaches every one of
    them exactly once. *)
Record AlignResult := mkAlignResult {
  segments : list Segment;
}.

(** Samples returned by [librosa.load]. *)
Definition Audio := list float.

(** ** Exceptions, messages and events *)

Inductive Exn :=
| ValueError_specify_zh
    (* line 91: ValueError asking to set the transcription language to zh *)
| External (callee : string) (what : string).
    (* any exception raised inside an external call *)

(** What an oracle answers: a value, or the description of the exception
    the call raises. *)
Inductive outcome (A : Type) :=
| Ok (a : A)
| Err (what : string).
Arguments Ok {A} a.
Arguments Err {A} what.

(** The console messages ([rprint] and [print]), one constructor per call
    site, carrying the values it formats. *)
Inductive Message :=
| msg_starting (device : string)                                 (* line 23 *)
| msg_gpu (gpu_mem : float) (batch_size : Z) (compute_type : string) (* line 29 *)
| msg_cpu (batch_size : Z) (compute_type : string)               (* line 33 *)
| msg_segment (start end_ : float)                               (* line 34 *)
| msg_loading_local (local_model : string)                       (* line 45 *)
| msg_using_huggingface (model_name : string)                    (* line 48 *)
| msg_processing_error (e : Exn)                                 (* line 112 *)
| msg_results_exist                                              (* line 117 *)
| msg_skip_demucs (path : string)                                (* line 124 *)
| msg_demucs_completed.                                          (* line 132 *)

Inductive ModelKind := WhisperModel | AlignModel.

Global Instance ModelKind_eq_dec : EqDecision ModelKind.
Proof. solve_decision. Defined.

(** Every interaction with the outside, in program order. *)
Inductive Event :=
| ERprint (m : Message)
| EPathExists (path : string)
| ECudaIsAvailable
| EGetDeviceProperties
| EIsBf16Supported
| ELoadModel (model_name device compute_type : string)
             (lang : option string) (download_root : string)
| ENamedTemporaryFile
| EFfmpeg (audio_file : string) (ss t : float) (out : string)
| ELibrosaLoad (path : string)
| EUnlink (path : string)
| EModelTranscribe (batch_size : Z)
| EDel (k : ModelKind)
| EEmptyCache
| ESaveLanguage (lang : string)
| ELoadAlignModel (language_code device : string)
| EAlign (device : string)
| EConvertVideoToAudio (video_file : string)
| EDemucsMain (raw out_dir background vocal : string)
| ESplitAudio (audio_file : string)
| EProcessTranscription (n_segments : nat)
| ESaveResults.

(** ** The world *)

Record World := mkWorld {
  files : gset string;
    (* paths for which os.path.exists answers True *)
  live_models : list (ModelKind * string);
    (* model objects still referenced, each with the device it was loaded
       on, most recent first *)
  history : list Event;
    (* the events so far, most recent first *)
}.

(** The events so far in program order. *)
Definition trace (w : World) : list Event := rev (history w).

Definition log (e : Event) (w : World) : World :=
  mkWorld (files w) (live_models w) (e :: history w).

Definition add_file (p : string) (w : World) : World :=
  mkWorld ({[ p ]} ∪ files w) (live_models w) (history w).

Definition hold (h : ModelKind * string) (w : World) : World :=
  mkWorld (files w) (h :: live_models w) (history w).

(** [del x]: the most recent reference of that kind and device goes away. *)
Fixpoint remove_first (h : ModelKind * string) (l : list (ModelKind * string))
  : list (ModelKind * string) :=
  match l with
  | [] => []
  | x :: l' => if decide (x = h) then l' else x :: remove_first h l'
  end.

Definition release (h : ModelKind * string) (w : World) : World :=
  mkWorld (files w) (remove_first h (live_models w)) (history w).

(** ** The environment: configuration, constants and collaborators *)

Record Env := mkEnv {
  (* core.config_utils.load_key *)
  WHISPER_LANGUAGE : string;            (* load_key("whisper.language") *)
  MODEL_DIR : string;                   (* load_key("model_dir"), line 18 *)
  (* constants imported from whisperXapi, line 16 *)
  RAW_AUDIO_FILE : string;
  BACKGROUND_AUDIO_FILE : string;
  VOCAL_AUDIO_FILE : string;
  AUDIO_DIR : string;
  (* torch.cuda: the capability of the machine *)
  cuda_is_available : bool;
  total_memory : Z;                     (* bytes of device 0 *)
  is_bf16_supported : bool;
  (* the rows built by process_transcription *)
  DataFrame : Type;
  (* collaborators; each sees the world (and so the whole history) *)
  load_model : World -> string -> string -> string -> option string -> outcome unit;
  named_temporary_file : World -> outcome string;
  ffmpeg : World -> string -> float -> float -> string -> outcome unit;
  librosa_load : World -> string -> outcome Audio;
  unlink : World -> string -> outcome unit;
  model_transcribe : World -> Audio -> Z -> outcome TranscribeResult;
  save_language : World -> string -> outcome unit;
  load_align_model : World -> string -> string -> outcome unit;
  align : World -> list RawSegment -> Audio -> string -> outcome AlignResult;
  convert_video_to_audio : World -> string -> outcome string;
  demucs_main : World -> string -> string -> string -> string -> outcome unit;
  split_audio : World -> string -> outcome (list (float * float));
  process_transcription : World -> list Segment -> outcome DataFrame;
  save_results : World -> DataFrame -> outcome unit;
}.

(** ** The monad of the program: state and exceptions *)

Inductive Result (A : Type) :=
| Return (a : A)
| Raise (e : Exn).
Arguments Return {A} a.
Arguments Raise {A} e.

Definition M (A : Type) : Type := World -> Result A * World.

Definition ret {A} (a : A) : M A := fun w => (Return a, w).

Definition bind {A B} (m : M A) (k : A -> M B) : M B :=
  fun w => match m w with
           | (Return a, w') => k a w'
           | (Raise e, w') => (Raise e, w')
           end.

Definition raise {A} (e : Exn) : M A := fun w => (Raise e, w).

(** [try: m except Exception as e: h e].  [Exn] holds the exceptions that
    derive from [Exception]; what does not (a [KeyboardInterrupt]) is
    outside the model. *)
Definition try_except {A} (m : M A) (h : Exn -> M A) : M A :=
  fun w => match m w with
           | (Return a, w') => (Return a, w')
           | (Raise e, w') => h e w'
           end.

Notation "'do' x <- m ; k" := (bind m (fun x => k))
  (at level 10, x pattern, m at level 100, k at level 200,
   format "'[v' 'do'  x  <-  m ; '/' k ']'").
Notation "'run' m ; k" := (bind m (fun _ => k))
  (at level 10, m at level 100, k at level 200,
   format "'[v' 'run'  m ; '/' k ']'").

(** An effect without a result. *)
Definition emit (e : Event) : M unit := fun w => (Return tt, log e w).

(** [rprint] is taken to return: a message whose text rich cannot parse
    as markup is outside the model. *)
Definition rprint (m : Message) : M unit := emit (ERprint m).

(** A query that cannot fail. *)
Definition query {A} (e : Event) (answer : A) : M A :=
  fun w => (Return answer, log e w).

(** A call of a collaborator: the oracle sees the world before the call;
    the call is logged whether it returns or raises. *)
Definition call {A} (callee : string) (e : Event) (oracle : World -> outcome A)
  : M A :=
  fun w => match oracle w with
           | Ok a => (Return a, log e w)
           | Err what => (Raise (External callee what), log e w)
           end.

(** [os.path.exists] *)
Definition path_exists (p : string) : M bool :=
  fun w => (Return (bool_decide (p ∈ files w)), log (EPathExists p) w).

Definition modify (f : World -> World) : M unit := fun w => (Return tt, f w).

(** ** Strings and paths *)

(** [needle in hay] on Python strings. *)
Fixpoint contains (needle hay : string) : bool :=
  String.prefix needle hay
  || match hay with
     | EmptyString => false
     | String _ hay' => contains needle hay'
     end.

Fixpoint ends_with_slash (s : string) : bool :=
  match s with
  | EmptyString => false
  | String c EmptyString => Ascii.eqb c "/"%char
  | String _ s' => ends_with_slash s'
  end.

(** [os.path.join a b] of posixpath. *)
Definition path_join (a b : string) : string :=
  if String.prefix "/" b then b
  else if String.eqb a EmptyString || ends_with_slash a then a ++ b
  else a ++ "/" ++ b.

(** ** Timestamps *)

(** Python's [int / int] for a byte count and a power of two: both
    operands are exact as binary64 below 2^53.  The conversion is that of
    a 63-bit integer: it is Python's for 0 <= z < 2^63, which covers the
    byte count of any device, and wraps outside. *)
Definition float_of_Z (z : Z) : float := PrimFloat.of_uint63 (Uint63.of_Z z).

(** Lines 101-109: the shift of one word. *)
Definition adjust_word (start : float) (wd : Word) : Word :=
  mkWord (word wd)
         (match w_start wd with
          | Some t => Some (PrimFloat.add t start)
          | None => None
          end)
         (match w_end wd with
          | Some t => Some (PrimFloat.add t start)
          | None => None
          end)
         (w_score wd).

Definition adjust_segment (start : float) (s : Segment) : Segment :=
  mkSegment (PrimFloat.add (seg_start s) start)
            (PrimFloat.add (seg_end s) start)
            (seg_text s)
            (map (adjust_word start) (words s)).

Definition adjust_timestamps (start : float) (r : AlignResult) : AlignResult :=
  mkAlignResult (map (adjust_segment start) (segments r)).

(** ** The program *)

(** Loading a model: the call, then the new object is referenced. *)
Definition acquire (callee : string) (e : Event) (oracle : World -> outcome unit)
    (h : ModelKind * string) : M unit :=
  run call callee e oracle;
  modify (hold h).

(** [del model] / [del model_a] *)
Definition del (h : ModelKind * string) : M unit :=
  run emit (EDel (fst h));
  modify (release h).

(** Modelled from the spec: [demucs_main] is imported from [demucs_vl],
    which is not in the source tree; by section 1 of the spec it "produces
    a vocal-only audio file and a background-only audio file", at the two
    paths it is given. *)
Definition demucs_outputs (background vocal : string) : M unit :=
  run modify (add_file background);
  modify (add_file vocal).

(** The path tested on line 116. *)
Definition CLEANED_CHUNKS : string := "output/log/cleaned_chunks.xlsx".

(** Modelled from the spec: [save_results] is imported from [whisperXapi],
    which is not in the source tree; by sections 4.5 and 6 of the spec the
    run completes "by writing the final transcript artifact", the one
    whose existence short-circuits the next run. *)
Definition final_transcript_written : M unit :=
  modify (add_file CLEANED_CHUNKS).

Section Program.
Context (env : Env).

(** Lines 22-33: device, batch size and compute type.  The three torch
    queries, and [load_key] on line 21, are taken to return. *)
Definition derive_inference_config : M (string * Z * string) :=
  do avail <- query ECudaIsAvailable (cuda_is_available env);
  let device := if avail then "cuda" else "cpu" in
  run rprint (msg_starting device);
  if String.eqb device "cuda" then
    do tm <- query EGetDeviceProperties (total_memory env);
    let gpu_mem := PrimFloat.div (float_of_Z tm) (float_of_Z (1024 ^ 3)) in
    let batch_size := if PrimFloat.ltb 8%float gpu_mem then 16 else 2 in
    do bf16 <- query EIsBf16Supported (is_bf16_supported env);
    let compute_type := if bf16 then "float16" else "int8" in
    run rprint (msg_gpu gpu_mem batch_size compute_type);
    ret (device, batch_size, compute_type)
  else
    let batch_size := 1 in
    let compute_type := "int8" in
    run rprint (msg_cpu batch_size compute_type);
    ret (device, batch_size, compute_type).

(** Lines 37-86: load the model, cut the audio, transcribe, drop the
    model. *)
Definition transcribe_segment (device : string) (batch_size : Z)
    (compute_type : string) (audio_file : string) (start end_ : float)
  : M (TranscribeResult * Audio) :=
  let '(model_name, local_model) :=
    if String.eqb (WHISPER_LANGUAGE env) "zh"
    then ("Huan69/Belle-whisper-large-v3-zh-punct-fasterwhisper",
          path_join (MODEL_DIR env) "Belle-whisper-large-v3-zh-punct")
    else ("large-v3", path_join (MODEL_DIR env) "large-v3") in
  do local <- path_exists local_model;
  do model_name <-
    (if local : bool
     then run rprint (msg_loading_local local_model); ret local_model
     else run rprint (msg_using_huggingface model_name); ret model_name);
  let whisper_language :=
    if contains "auto" (WHISPER_LANGUAGE env) then None
    else Some (WHISPER_LANGUAGE env) in
  run acquire "whisperx.load_model"
        (ELoadModel model_name device compute_type whisper_language
                    (MODEL_DIR env))
        (fun w => load_model env w model_name device compute_type
                             whisper_language)
        (WhisperModel, device);
  do temp_audio_path <-
    call "tempfile.NamedTemporaryFile" ENamedTemporaryFile
         (named_temporary_file env);
  let t := PrimFloat.sub end_ start in
  run call "subprocess.run" (EFfmpeg audio_file start t temp_audio_path)
        (fun w => ffmpeg env w audio_file start t temp_audio_path);
  do audio_segment <-
    call "librosa.load" (ELibrosaLoad temp_audio_path)
         (fun w => librosa_load env w temp_audio_path);
  run call "os.unlink" (EUnlink temp_audio_path)
        (fun w => unlink env w temp_audio_path);
  do result <-
    call "model.transcribe" (EModelTranscribe batch_size)
         (fun w => model_transcribe env w audio_segment batch_size);
  run del (WhisperModel, device);
  run emit EEmptyCache;
  ret (result, audio_segment).

(** Lines 88-91: persist the language, then the check. *)
Definition language_check (result : TranscribeResult) : M unit :=
  run call "save_language" (ESaveLanguage (language result))
        (fun w => save_language env w (language result));
  if String.eqb (language result) "zh"
     && negb (String.eqb (WHISPER_LANGUAGE env) "zh")
  then raise ValueError_specify_zh
  else ret tt.

(** Lines 93-99: align, then drop the alignment model. *)
Definition align_segment (device : string) (result : TranscribeResult)
    (audio_segment : Audio) : M AlignResult :=
  run acquire "whisperx.load_align_model"
        (ELoadAlignModel (language result) device)
        (fun w => load_align_model env w (language result) device)
        (AlignModel, device);
  do aligned <-
    call "whisperx.align" (EAlign device)
         (fun w => align env w (raw_segments result) audio_segment device);
  run emit EEmptyCache;
  run del (AlignModel, device);
  ret aligned.

(** Lines 20-113.  The handler logs and re-raises; it releases nothing,
    and the locals of the frame stay referenced by the traceback. *)
Definition transcribe_audio (audio_file : string) (start end_ : float)
  : M AlignResult :=
  do (device, batch_size, compute_type) <- derive_inference_config;
  run rprint (msg_segment start end_);
  try_except
    (do (result, audio_segment) <-
       transcribe_segment device batch_size compute_type audio_file
                          start end_;
     run language_check result;
     do aligned <- align_segment device result audio_segment;
     ret (adjust_timestamps start aligned))
    (fun e =>
       run rprint (msg_processing_error e);
       raise e).

(** Lines 120-137: the audio file and the plan. *)
Definition prepare_audio (video_file : string)
  : M (string * list (float * float)) :=
  do audio_file <-
    call "convert_video_to_audio" (EConvertVideoToAudio video_file)
         (fun w => convert_video_to_audio env w video_file);
  let background := path_join (AUDIO_DIR env) (BACKGROUND_AUDIO_FILE env) in
  let vocal := path_join (AUDIO_DIR env) (VOCAL_AUDIO_FILE env) in
  let raw := path_join (AUDIO_DIR env) (RAW_AUDIO_FILE env) in
  do skip <- path_exists background;
  run (if skip : bool
       then rprint (msg_skip_demucs background)
       else
         run call "demucs_main"
               (EDemucsMain raw (AUDIO_DIR env) background vocal)
               (fun w => demucs_main env w raw (AUDIO_DIR env) background
                                     vocal);
         run demucs_outputs background vocal;
         rprint msg_demucs_completed);
  let audio_file := vocal in
  do segs <-
    call "split_audio" (ESplitAudio audio_file)
         (fun w => split_audio env w audio_file);
  ret (audio_file, segs).

(** Lines 140-143: the chunk loop. *)
Fixpoint transcribe_chunks (audio_file : string)
    (segs : list (float * float)) (all_results : list AlignResult)
  : M (list AlignResult) :=
  match segs with
  | [] => ret all_results
  | (start, end_) :: rest =>
      do result <- transcribe_audio audio_file start end_;
      transcribe_chunks audio_file rest (all_results ++ [result])
  end.

(** Lines 146-148: [extend] over the results, in order. *)
Definition combine (all_results : list AlignResult) : list Segment :=
  flat_map segments all_results.

(** Lines 145-151. *)
Definition merge_and_save (all_results : list AlignResult) : M unit :=
  let combined := combine all_results in
  do df <-
    call "process_transcription"
         (EProcessTranscription (length combined))
         (fun w => process_transcription env w combined);
  run call "save_results" ESaveResults (fun w => save_results env w df);
  final_transcript_written.

(** Lines 115-151. *)
Definition transcribe (video_file : string) : M unit :=
  do done <- path_exists CLEANED_CHUNKS;
  if done : bool then rprint msg_results_exist
  else
    do (audio_file, segs) <- prepare_audio video_file;
    do all_results <- transcribe_chunks audio_file segs [];
    merge_and_save all_results.

End Program.

(** Lines 20-86 alone: what the transcription of the chunk returns (the
    result and the audio it was made from), before the language is looked
    at. *)
Definition transcription_of_chunk (env : Env) (audio_file : string)
    (start end_ : float) : M (TranscribeResult * Audio) :=
  do (device, batch_size, compute_type) <- derive_inference_config env;
  run rprint (msg_segment start end_);
  transcribe_segment env device batch_size compute_type audio_file
                     start end_.

(** Lines 88-110 alone: what follows a transcription inside the [try]. *)
Definition after_transcription (env : Env) (device : string) (start : float)
    (result : TranscribeResult) (audio_segment : Audio) : M AlignResult :=
  run language_check env result;
  do aligned <- align_segment env device result audio_segment;
  ret (adjust_timestamps start aligned).

(** Lines 111-113 alone. *)
Definition log_and_reraise {A} (e : Exn) : M A :=
  run rprint (msg_processing_error e);
  raise e.

(** ** The inference configuration as the specification words it *)

Inductive Precision := full | half | int8.

Record CapabilityDescriptor := mkCapability {
  has_accelerator : bool;
  memory_gb : float;
  half_supported : bool;
}.

Record InferenceConfig := mkInferenceConfig {
  batch_size : Z;
  precision : Precision;
}.

(** "if an accelerator is present, batch_size = 16 when memory_gb > 8 else
    2; if no accelerator, batch_size = 1; precision = highest-throughput
    precision the accelerator supports, else an integer-quantized
    fallback." *)
Definition inference_config (d : CapabilityDescriptor) : InferenceConfig :=
  if has_accelerator d then
    mkInferenceConfig
      (if PrimFloat.ltb 8%float (memory_gb d) then 16 else 2)
      (if half_supported d then half else int8)
  else mkInferenceConfig 1 int8.

(** The descriptor of a machine, as torch reports it. *)
Definition capability (env : Env) : CapabilityDescriptor :=
  mkCapability
    (cuda_is_available env)
    (PrimFloat.div (float_of_Z (total_memory env)) (float_of_Z (1024 ^ 3)))
    (is_bf16_supported env).

Definition compute_type_name (p : Precision) : string :=
  match p with
  | full => "float32"
  | half => "float16"
  | int8 => "int8"
  end.

Definition device_name (d : CapabilityDescriptor) : string :=
  if has_accelerator d then "cuda" else "cpu".

(** ** Reading a trace *)

Definition is_capability_query (e : Event) : bool :=
  match e with ECudaIsAvailable => true | _ => false end.

Definition is_save_results (e : Event) : bool :=
  match e with ESaveResults => true | _ => false end.

Definition is_process_transcription (e : Event) : bool :=
  match e with EProcessTranscription _ => true | _ => false end.

Definition is_chunk_start (e : Event) : bool :=
  match e with ERprint (msg_segment _ _) => true | _ => false end.

Definition is_model_transcribe (e : Event) : bool :=
  match e with EModelTranscribe _ => true | _ => false end.

Definition is_model_work (e : Event) : bool :=
  match e with
  | ELoadModel _ _ _ _ _ | EModelTranscribe _ | ELoadAlignModel _ _
  | EAlign _ | EDemucsMain _ _ _ _ | ESplitAudio _ => true
  | _ => false
  end.

(** The events of lines 120-137, and those of lines 145-151. *)
Definition is_preparation_event (e : Event) : bool :=
  match e with
  | EConvertVideoToAudio _ | EPathExists _ | EDemucsMain _ _ _ _
  | ESplitAudio _ | ERprint (msg_skip_demucs _)
  | ERprint msg_demucs_completed => true
  | _ => false
  end.

Definition is_merge_event (e : Event) : bool :=
  match e with
  | EProcessTranscription _ | ESaveResults => true
  | _ => false
  end.

(** How many events of a kind the world has seen. *)
Definition occurrences (p : Event -> bool) (w : World) : nat :=
  length (List.filter p (history w)).

Fixpoint languages_in (evs : list Event) : list string :=
  match evs with
  | [] => []
  | ESaveLanguage l :: evs' => l :: languages_in evs'
  | _ :: evs' => languages_in evs'
  end.

(** The languages handed to [save_language] so far, in program order. *)
Definition saved_languages (w : World) : list string :=
  rev (languages_in (history w)).

(** An event agrees with a configuration when the parameters it carries
    are the configuration's. *)
Definition uses_config (device : string) (c : InferenceConfig) (e : Event)
  : Prop :=
  match e with
  | ELoadModel _ dev ct _ _ =>
      dev = device /\ ct = compute_type_name (precision c)
  | EModelTranscribe b => b = batch_size c
  | ELoadAlignModel _ dev => dev = device
  | EAlign dev => dev = device
  | _ => True
  end.

(** The events emitted between two worlds of one run, in program order. *)
Definition emitted (w w' : World) : list Event :=
  rev (take (length (history w') - length (history w)) (history w')).

(** ** The inverse shift, for the round trip *)

Definition unshift_word (start : float) (wd : Word) : Word :=
  mkWord (word wd)
         (match w_start wd with
          | Some t => Some (PrimFloat.sub t start)
          | None => None
          end)
         (match w_end wd with
          | Some t => Some (PrimFloat.sub t start)
          | None => None
          end)
         (w_score wd).

Definition unshift_segment (start : float) (s : Segment) : Segment :=
  mkSegment (PrimFloat.sub (seg_start s) start)
            (PrimFloat.sub (seg_end s) start)
            (seg_text s)
            (map (unshift_word start) (words s)).

Definition unshift_timestamps (start : float) (r : AlignResult) : AlignResult :=
  mkAlignResult (map (unshift_segment start) (segments r)).

(** The exponent of the smallest subnormal: every finite binary64 value
    is a whole number of units of 2^-1074. *)
Definition emin64 : Z := -1074.

(** The value of a float in units of 2^-1074; none for infinities and
    NaN. *)
Definition units_of (x : spec_float) : option Z :=
  match x with
  | S754_zero _ => Some 0
  | S754_finite s m e => Some (cond_Zopp s (Zpos m) * 2 ^ (e - emin64))
  | S754_infinity _ | S754_nan => None
  end.

Definition units (x : float) : option Z := units_of (Prim2SF x).

(** [t + start] is exact: the binary64 sum is the real sum, neither
    rounded nor overflowed. *)
Definition exact_sum (t start : float) : Prop :=
  match units t, units start, units (PrimFloat.add t start) with
  | Some a, Some b, Some c => c = a + b
  | _, _, _ => False
  end.

(** A timestamp on which the shift by [start] can be undone: the addition
    of [start] is exact and the timestamp is not the negative zero (whose
    sign no subtraction gives back). *)
Definition recoverable (start t : float) : Prop :=
  exact_sum t start /\ t <> neg_zero.

Definition optional_timestamp (o : option float) : list float :=
  match o with
  | Some t => [t]
  | None => []
  end.

(** Every timestamp a chunk result defines. *)
Definition word_timestamps (wd : Word) : list float :=
  optional_timestamp (w_start wd) ++ optional_timestamp (w_end wd).

Definition segment_timestamps (s : Segment) : list float :=
  seg_start s :: seg_end s :: flat_map word_timestamps (words s).

Definition timestamps (r : AlignResult) : list float :=
  flat_map segment_timestamps (segments r).

(** One word is the shift of another: same text and score, each defined
    timestamp moved by [start], each absent one still absent. *)
Definition shifted_word (start : float) (wd wd' : Word) : Prop :=
  word wd' = word wd
  /\ w_score wd' = w_score wd
  /\ w_start wd' = option_map (fun t => PrimFloat.add t start) (w_start wd)
  /\ w_end wd' = option_map (fun t => PrimFloat.add t start) (w_end wd).

Definition shifted_segment (start : float) (s s' : Segment) : Prop :=
  seg_start s' = PrimFloat.add (seg_start s) start
  /\ seg_end s' = PrimFloat.add (seg_end s) start
  /\ seg_text s' = seg_text s
  /\ Forall2 (shifted_word start) (words s) (words s').

(** The languages the chunks of a plan detect, in order, as far as the
    loop of lines 141-143 gets: it stops at the first invocation that
    raises. *)
Fixpoint detected_languages (env : Env) (audio_file : string)
    (segs : list (float * float)) (w : World) : list string :=
  match segs with
  | [] => []
  | (start, end_) :: rest =>
      match fst (transcription_of_chunk env audio_file start end_ w) with
      | Return (r, _) => [language r]
      | Raise _ => []
      end ++
      match transcribe_audio env audio_file start end_ w with
      | (Return _, w1) => detected_languages env audio_file rest w1
      | (Raise _, _) => []
      end
  end.

Definition is_demucs_call (e : Event) : bool :=
  match e with EDemucsMain _ _ _ _ => true | _ => false end.

(** The paths of lines 123-134. *)
Definition background_path (env : Env) : string :=
  path_join (AUDIO_DIR env) (BACKGROUND_AUDIO_FILE env).

Definition vocal_path (env : Env) : string :=
  path_join (AUDIO_DIR env) (VOCAL_AUDIO_FILE env).

(** Lines 136-151 for a given audio file: plan, loop, merge. *)
Definition split_and_transcribe (env : Env) (audio_file : string) : M unit :=
  do segs <-
    call "split_audio" (ESplitAudio audio_file)
         (fun w => split_audio env w audio_file);
  do all_results <- transcribe_chunks env audio_file segs [];
  merge_and_save env all_results.

(** 0.1 as Python reads it. *)
Definition one_tenth : float := 0x1.999999999999ap-4%float.

(** A chunk result whose only segment starts at 0.1 s. *)
Definition starts_at_one_tenth : AlignResult :=
  mkAlignResult [mkSegment one_tenth 2%float "hi" []].

(** ** Sample machines and runs *)

Definition empty_world : World := mkWorld ∅ [] [].

(** What the sample aligner answers for every chunk: one segment with a
    placed word and an unplaced one. *)
Definition sample_alignment : AlignResult :=
  mkAlignResult
    [mkSegment 0%float 2%float "hi there"
       [mkWord "hi" (Some 1%float) (Some 1.5%float) (Some 0.5%float);
        mkWord "there" None None None]].

(** A machine with a 24 GB accelerator whose collaborators all succeed,
    except that the [n]-th call of [model.transcribe] (from 0) answers
    [detect n]. *)
Definition sample_env (lang : string) (cuda : bool)
    (detect : nat -> outcome TranscribeResult)
    (plan : list (float * float)) : Env :=
  {| WHISPER_LANGUAGE := lang;
     MODEL_DIR := "_model_cache";
     RAW_AUDIO_FILE := "raw_full_audio.wav";
     BACKGROUND_AUDIO_FILE := "background.mp3";
     VOCAL_AUDIO_FILE := "original_vocal.mp3";
     AUDIO_DIR := "output/audio";
     cuda_is_available := cuda;
     total_memory := 24 * 1024 ^ 3;
     is_bf16_supported := true;
     DataFrame := list Segment;
     load_model := fun _ _ _ _ _ => Ok tt;
     named_temporary_file := fun _ => Ok "/tmp/tmpq1w2e3.mp3";
     ffmpeg := fun _ _ _ _ _ => Ok tt;
     librosa_load := fun _ _ => Ok [];
     unlink := fun _ _ => Ok tt;
     model_transcribe :=
       fun w _ _ => detect (occurrences is_model_transcribe w);
     save_language := fun _ _ => Ok tt;
     load_align_model := fun _ _ _ => Ok tt;
     align := fun _ _ _ _ => Ok sample_alignment;
     convert_video_to_audio :=
       fun _ _ => Ok "output/audio/raw_full_audio.wav";
     demucs_main := fun _ _ _ _ _ => Ok tt;
     split_audio := fun _ _ => Ok plan;
     process_transcription := fun _ segs => Ok segs;
     save_results := fun _ _ => Ok tt |}.

Definition detects (lang : string) : nat -> outcome TranscribeResult :=
  fun _ => Ok (mkTranscribeResult lang []).

Definition two_chunks : list (float * float) :=
  [(0%float, 50%float); (50%float, 100%float)].

(** English, then French. *)
Definition english_then_french (n : nat) : outcome TranscribeResult :=
  match n with
  | O => Ok (mkTranscribeResult "en" [])
  | _ => Ok (mkTranscribeResult "fr" [])
  end.

(** The second chunk runs out of memory. *)
Definition second_chunk_fails (n : nat) : outcome TranscribeResult :=
  match n with
  | O => Ok (mkTranscribeResult "en" [])
  | _ => Err "CUDA out of memory"
  end.

Definition always_fails : nat -> outcome TranscribeResult :=
  fun _ => Err "CUDA out of memory".

(** A run of two chunks whose second transcription fails, and the worlds
    it goes through: after the preparation, after the first chunk, after
    the failing invocation. *)
Definition failing_env : Env :=
  sample_env "en" true second_chunk_fails two_chunks.

Definition sample_vocal : string := "output/audio/original_vocal.mp3".

Definition failing_w1 : World :=
  snd (prepare_audio failing_env "video.mp4"
         (log (EPathExists CLEANED_CHUNKS) empty_world)).

Definition failing_wk : World :=
  snd (transcribe_chunks failing_env sample_vocal [(0%float, 50%float)] []
         failing_w1).

Definition failing_wf : World :=
  snd (transcribe_audio failing_env sample_vocal 50%float 100%float
         failing_wk).


(** ** More readers of the trace *)

Definition is_alignment (e : Event) : bool :=
  match e with ELoadAlignModel _ _ | EAlign _ => true | _ => false end.

Definition is_load_model (e : Event) : bool :=
  match e with ELoadModel _ _ _ _ _ => true | _ => false end.

Definition is_temporary_file (e : Event) : bool :=
  match e with ENamedTemporaryFile => true | _ => false end.

Definition is_unlink (e : Event) : bool :=
  match e with EUnlink _ => true | _ => false end.

(** The calls of lines 59-82, between the loading of the Whisper model and
    its deletion. *)
Definition under_whisper_model : list string :=
  ["tempfile.NamedTemporaryFile"; "subprocess.run"; "librosa.load";
   "os.unlink"; "model.transcribe"].

(** The model objects an invocation leaves referenced when the call named
    [callee] raises in it. *)
Definition left_referenced (device callee : string)
  : list (ModelKind * string) :=
  if bool_decide (callee ∈ under_whisper_model)
  then [(WhisperModel, device)]
  else if String.eqb callee "whisperx.align"
  then [(AlignModel, device)]
  else [].

(** A result of the chunk loop for the range [seg]: what the aligner
    answered for some transcription of the chunk, moved by the start of
    the range. *)
Definition shift_of_alignment (env : Env) (seg : float * float)
    (res : AlignResult) : Prop :=
  exists r au wa aligned,
    align env wa (raw_segments r) au (device_name (capability env))
    = Ok aligned
    /\ res = adjust_timestamps (fst seg) aligned.

(** What line 58 passes to [load_model] as language. *)
Definition load_model_language_is (lang : option string) (e : Event) : Prop :=
  match e with
  | ELoadModel _ _ _ l _ => l = lang
  | _ => True
  end.

(** The same machine with an [ffmpeg] that fails. *)
Definition with_failing_ffmpeg (env : Env) : Env :=
  {| WHISPER_LANGUAGE := WHISPER_LANGUAGE env;
     MODEL_DIR := MODEL_DIR env;
     RAW_AUDIO_FILE := RAW_AUDIO_FILE env;
     BACKGROUND_AUDIO_FILE := BACKGROUND_AUDIO_FILE env;
     VOCAL_AUDIO_FILE := VOCAL_AUDIO_FILE env;
     AUDIO_DIR := AUDIO_DIR env;
     cuda_is_available := cuda_is_available env;
     total_memory := total_memory env;
     is_bf16_supported := is_bf16_supported env;
     DataFrame := DataFrame env;
     load_model := load_model env;
     named_temporary_file := named_temporary_file env;
     ffmpeg := fun _ _ _ _ _ => Err "ffmpeg returned non-zero exit status 1";
     librosa_load := librosa_load env;
     unlink := unlink env;
     model_transcribe := model_transcribe env;
     save_language := save_language env;
     load_align_model := load_align_model env;
     align := align env;
     convert_video_to_audio := convert_video_to_audio env;
     demucs_main := demucs_main env;
     split_audio := split_audio env;
     process_transcription := process_transcription env;
     save_results := save_results env |}.

(** The same machine with a [split_audio] that fails. *)
Definition with_failing_split (env : Env) : Env :=
  {| WHISPER_LANGUAGE := WHISPER_LANGUAGE env;
     MODEL_DIR := MODEL_DIR env;
     RAW_AUDIO_FILE := RAW_AUDIO_FILE env;
     BACKGROUND_AUDIO_FILE := BACKGROUND_AUDIO_FILE env;
     VOCAL_AUDIO_FILE := VOCAL_AUDIO_FILE env;
     AUDIO_DIR := AUDIO_DIR env;
     cuda_is_available := cuda_is_available env;
     total_memory := total_memory env;
     is_bf16_supported := is_bf16_supported env;
     DataFrame := DataFrame env;
     load_model := load_model env;
     named_temporary_file := named_temporary_file env;
     ffmpeg := ffmpeg env;
     librosa_load := librosa_load env;
     unlink := unlink env;
     model_transcribe := model_transcribe env;
     save_language := save_language env;
     load_align_model := load_align_model env;
     align := align env;
     convert_video_to_audio := convert_video_to_audio env;
     demucs_main := demucs_main env;
     split_audio := fun _ _ => Err "No such file or directory";
     process_transcription := process_transcription env;
     save_results := save_results env |}.

Definition english_env : Env :=
  sample_env "en" true (detects "en") two_chunks.

(** The world in which line 81 calls [model.transcribe]: the temporary
    file [tmp] has been created in [wt], written by ffmpeg, loaded and
    removed. *)
Definition transcription_world (audio_file : string) (start end_ : float)
    (tmp : string) (wt : World) : World :=
  log (EUnlink tmp)
    (log (ELibrosaLoad tmp)
       (log (EFfmpeg audio_file start (PrimFloat.sub end_ start) tmp)
          (log ENamedTemporaryFile wt))).

(** The world after lines 81-86, when [model.transcribe] was called in
    [wm]. *)
Definition transcribed_world (device : string) (batch : Z) (wm : World)
  : World :=
  log EEmptyCache
    (release (WhisperModel, device)
       (log (EDel WhisperModel) (log (EModelTranscribe batch) wm))).

(** The world in which line 95 calls the aligner, when the transcription
    [r] was returned in [w1]: the language has been saved and the
    alignment model loaded. *)
Definition alignment_world (device : string) (r : TranscribeResult)
    (w1 : World) : World :=
  hold (AlignModel, device)
    (log (ELoadAlignModel (language r) device)
       (log (ESaveLanguage (language r)) w1)).

(** The world after lines 95-99, when the aligner was called in [wa]. *)
Definition aligned_world (device : string) (wa : World) : World :=
  release (AlignModel, device)
    (log (EDel AlignModel) (log EEmptyCache (log (EAlign device) wa))).

(** * Proofs *)

Arguments path_join : simpl never.
Arguments contains : simpl never.
Arguments float_of_Z : simpl never.
Arguments emitted : simpl never.

(** ** Running the program symbolically *)

Ltac unfold_program :=
  unfold transcribe_audio, transcription_of_chunk, after_transcription,
    log_and_reraise, derive_inference_config,
    transcribe_segment, language_check, align_segment, prepare_audio,
    merge_and_save, final_transcript_written, demucs_outputs,
    acquire, del, call, emit, rprint, query, path_exists, modify,
    bind, ret, raise, try_except in *.

(** One branching point of the run: an oracle's answer, a file test, the
    language test. *)
Ltac branch :=
  match goal with
  | |- context [match ?x with Ok _ => _ | Err _ => _ end] =>
      destruct x eqn:?
  | |- context [if bool_decide ?P then _ else _] =>
      destruct (bool_decide P) eqn:?
  | |- context [if (String.eqb ?a ?b && ?c)%bool then _ else _] =>
      destruct (String.eqb a b) eqn:?
  end.

Ltac branches := repeat (branch; cbn).

(** The same, forgetting which answer was given. *)
Ltac blind_branch :=
  match goal with
  | |- context [match ?x with Ok _ => _ | Err _ => _ end] => destruct x
  | |- context [if bool_decide ?P then _ else _] =>
      destruct (bool_decide P)
  | |- context [if (String.eqb ?a ?b && ?c)%bool then _ else _] =>
      destruct (String.eqb a b)
  end.

Ltac blind_branches := repeat (blind_branch; cbn).

Ltac machine env :=
  cbn;
  destruct (cuda_is_available env) eqn:?; cbn;
  destruct (is_bf16_supported env) eqn:?; cbn;
  destruct (String.eqb (WHISPER_LANGUAGE env) "zh") eqn:?; cbn.

Lemma emitted_since w w' evs :
  history w' = (evs ++ history w)%list -> emitted w w' = rev evs.
Proof.
  intros H. unfold emitted. rewrite H, length_app.
  replace (length evs + length (history w) - length (history w))%nat
    with (length evs) by lia.
  by rewrite take_app_length.
Qed.

(** The events a history has on top of an older one. *)
Ltac events_above h base :=
  lazymatch h with
  | base => constr:(@nil Event)
  | ?e :: ?t => let r := events_above t base in constr:(e :: r)
  end.

Ltac read_emitted :=
  lazymatch goal with
  | |- context [emitted ?w ?w'] =>
      let h := eval cbn [history log hold release add_file] in (history w') in
      let evs := events_above h (history w) in
      rewrite (emitted_since w w' evs eq_refl); cbn [rev app]
  end.

Lemma derive_inference_config_returns env w :
  fst (derive_inference_config env w) =
  Return (device_name (capability env),
          batch_size (inference_config (capability env)),
          compute_type_name (precision (inference_config (capability env)))).
Proof.
  unfold_program. unfold device_name, inference_config, capability. cbn.
  destruct (cuda_is_available env); cbn; [|reflexivity].
  destruct (is_bf16_supported env); reflexivity.
Qed.

Lemma transcribe_audio_uses_config env a s e w :
  Forall (uses_config (device_name (capability env))
                      (inference_config (capability env)))
         (emitted w (snd (transcribe_audio env a s e w))).
Proof.
  unfold_program. unfold device_name, inference_config, capability.
  machine env.
  all: blind_branches.
  all: read_emitted.
  all: repeat constructor.
Qed.

(** C7.  The inference configuration is the specification's function of
    the capability descriptor: without an accelerator batch size 1 and
    int8; with one, batch size 16 when the memory exceeds 8 GB and 2
    otherwise, half precision when supported and int8 otherwise.  The
    selection of lines 22-33 returns exactly that configuration in every
    world, and every model call of the invocation is made with it. *)
Theorem inference_config_is_function_of_capability env a s e w :
  let d := capability env in
  let c := inference_config d in
  c = (if has_accelerator d
       then mkInferenceConfig
              (if PrimFloat.ltb 8%float (memory_gb d) then 16 else 2)
              (if half_supported d then half else int8)
       else mkInferenceConfig 1 int8)
  /\ fst (derive_inference_config env w) =
     Return (device_name d, batch_size c, compute_type_name (precision c))
  /\ Forall (uses_config (device_name d) c)
            (emitted w (snd (transcribe_audio env a s e w))).
Proof.
  cbn zeta. split; [reflexivity|]. split.
  - apply derive_inference_config_returns.
  - apply transcribe_audio_uses_config.
Qed.

(** ** One invocation *)

Lemma transcribe_audio_queries_capability_once env a s e w :
  occurrences is_capability_query (snd (transcribe_audio env a s e w)) =
  S (occurrences is_capability_query w).
Proof.
  unfold_program. machine env.
  all: blind_branches.
  all: reflexivity.
Qed.

Lemma transcribe_audio_starts_once env a s e w :
  occurrences is_chunk_start (snd (transcribe_audio env a s e w)) =
  S (occurrences is_chunk_start w).
Proof.
  unfold_program. machine env.
  all: blind_branches.
  all: reflexivity.
Qed.

Lemma transcribe_audio_never_saves env a s e w :
  occurrences is_save_results (snd (transcribe_audio env a s e w)) =
  occurrences is_save_results w.
Proof.
  unfold_program. machine env.
  all: blind_branches.
  all: reflexivity.
Qed.

Lemma transcribe_audio_saves_its_language env a s e w :
  saved_languages (snd (transcribe_audio env a s e w)) =
  (saved_languages w ++
   match fst (transcription_of_chunk env a s e w) with
   | Return (r, _) => [language r]
   | Raise _ => []
   end)%list.
Proof.
  unfold_program. machine env.
  all: blind_branches.
  all: rewrite ?app_nil_r; reflexivity.
Qed.

Lemma remove_first_head h l : remove_first h (h :: l) = l.
Proof. cbn. destruct (decide (h = h)); [reflexivity|congruence]. Qed.

Lemma transcribe_audio_releases env a s e w :
  match fst (transcribe_audio env a s e w) with
  | Return _ | Raise ValueError_specify_zh =>
      live_models (snd (transcribe_audio env a s e w)) = live_models w
  | Raise (External _ _) => True
  end.
Proof.
  unfold_program. machine env.
  all: blind_branches.
  all: try exact I.
  all: cbn [live_models log hold release]; rewrite ?remove_first_head; try reflexivity.
Qed.

Lemma derive_inference_config_total env w :
  exists w1,
    derive_inference_config env w =
    (Return (device_name (capability env),
             batch_size (inference_config (capability env)),
             compute_type_name (precision (inference_config (capability env)))),
     w1).
Proof.
  exists (snd (derive_inference_config env w)).
  rewrite <- (derive_inference_config_returns env w).
  apply surjective_pairing.
Qed.

(** The invocation is the transcription, then what follows it under the
    handler. *)
Lemma transcribe_audio_phases env a s e w :
  transcribe_audio env a s e w =
  match transcription_of_chunk env a s e w with
  | (Return (r, au), w1) =>
      try_except (after_transcription env (device_name (capability env)) s r au)
                 log_and_reraise w1
  | (Raise ex, w1) => log_and_reraise ex w1
  end.
Proof.
  unfold transcribe_audio, transcription_of_chunk, after_transcription,
    log_and_reraise, try_except, bind.
  destruct (derive_inference_config_total env w) as [w1 ->].
  cbn [rprint emit].
  destruct (transcribe_segment _ _ _ _ _ _ _ _) as [[[r au]|ex] w2];
    reflexivity.
Qed.

Lemma transcription_of_chunk_raises_external env a s e w :
  fst (transcription_of_chunk env a s e w) <> Raise ValueError_specify_zh.
Proof.
  unfold_program. machine env.
  all: blind_branches.
  all: discriminate.
Qed.

Lemma transcribe_audio_mismatch env a s e w :
  fst (transcribe_audio env a s e w) = Raise ValueError_specify_zh
  <-> exists r au,
      fst (transcription_of_chunk env a s e w) = Return (r, au)
      /\ save_language env (snd (transcription_of_chunk env a s e w))
                       (language r) = Ok tt
      /\ language r = "zh"
      /\ WHISPER_LANGUAGE env <> "zh".
Proof.
  rewrite transcribe_audio_phases.
  pose proof (transcription_of_chunk_raises_external env a s e w) as Hext.
  destruct (transcription_of_chunk env a s e w) as [[[r au]|ex] w1]; cbn.
  2: { split; [intros [= ->]; by destruct Hext
              | intros (? & ? & ? & _); discriminate]. }
  unfold_program. cbn.
  destruct (save_language env w1 (language r)) as [[]|what] eqn:Hsave; cbn.
  2: { split; [discriminate | intros (? & ? & [= <- <-] & ? & _); congruence]. }
  destruct (String.eqb (language r) "zh") eqn:Hzh; cbn.
  - destruct (String.eqb (WHISPER_LANGUAGE env) "zh") eqn:Hcfg; cbn.
    + apply String.eqb_eq in Hcfg. blind_branches.
      all: split; [discriminate | intros (? & ? & _ & _ & _ & Hne); congruence].
    + apply String.eqb_eq in Hzh. apply String.eqb_neq in Hcfg.
      split; [|reflexivity]. intros _. exists r, au. auto.
  - apply String.eqb_neq in Hzh. blind_branches.
    all: split; [discriminate | intros (? & ? & [= <- <-] & _ & ? & _); congruence].
Qed.

(** ** The chunk loop *)

Section Loop.
Context (env : Env) (audio_file : string).

Lemma transcribe_chunks_app pre post acc w :
  transcribe_chunks env audio_file (pre ++ post) acc w =
  match transcribe_chunks env audio_file pre acc w with
  | (Return rs, w1) => transcribe_chunks env audio_file post rs w1
  | (Raise ex, w1) => (Raise ex, w1)
  end.
Proof.
  revert acc w. induction pre as [|[s e] pre IH]; intros acc w.
  - reflexivity.
  - cbn [app transcribe_chunks]. unfold bind.
    destruct (transcribe_audio env audio_file s e w) as [[r|ex] w1].
    + apply IH.
    + reflexivity.
Qed.

(** A kind of event no invocation emits is not emitted by the loop. *)
Lemma transcribe_chunks_never p :
  (forall a s e w,
      occurrences p (snd (transcribe_audio env a s e w)) = occurrences p w) ->
  forall segs acc w,
    occurrences p (snd (transcribe_chunks env audio_file segs acc w)) =
    occurrences p w.
Proof.
  intros Hp segs. induction segs as [|[s e] segs IH]; intros acc w.
  - reflexivity.
  - cbn [transcribe_chunks]. unfold bind.
    specialize (Hp audio_file s e w).
    destruct (transcribe_audio env audio_file s e w) as [[r|ex] w1];
      cbn [snd] in *.
    + rewrite IH. exact Hp.
    + exact Hp.
Qed.

(** A kind of event every invocation emits once is emitted once per
    chunk by a loop that completes. *)
Lemma transcribe_chunks_each p :
  (forall a s e w,
      occurrences p (snd (transcribe_audio env a s e w)) =
      S (occurrences p w)) ->
  forall segs acc w rs w',
    transcribe_chunks env audio_file segs acc w = (Return rs, w') ->
    occurrences p w' = (occurrences p w + length segs)%nat.
Proof.
  intros Hp segs. induction segs as [|[s e] segs IH]; intros acc w rs w' H.
  - cbn in H. injection H as _ <-. cbn. lia.
  - cbn [transcribe_chunks] in H. unfold bind in H.
    specialize (Hp audio_file s e w).
    destruct (transcribe_audio env audio_file s e w) as [[r|ex] w1];
      cbn [snd] in *; [|discriminate].
    apply IH in H. rewrite H, Hp. cbn [length]. lia.
Qed.

(** The loop stops at the first invocation that raises. *)
Lemma transcribe_chunks_stops pre s e post acc w rs wk err wf :
  transcribe_chunks env audio_file pre acc w = (Return rs, wk) ->
  transcribe_audio env audio_file s e wk = (Raise err, wf) ->
  transcribe_chunks env audio_file (pre ++ (s, e) :: post) acc w =
  (Raise err, wf).
Proof.
  intros Hpre Hfail. rewrite transcribe_chunks_app, Hpre.
  cbn [transcribe_chunks]. unfold bind. rewrite Hfail. reflexivity.
Qed.

End Loop.

(** ** Preparation and merge *)

Lemma occurrences_quiet p q w w' evs :
  history w' = (evs ++ history w)%list ->
  forallb q evs = true ->
  (forall e, q e = true -> p e = false) ->
  occurrences p w' = occurrences p w.
Proof.
  intros H Hq Hpq. unfold occurrences. rewrite H, List.filter_app, length_app.
  replace (List.filter p evs) with (@nil Event); [reflexivity|].
  clear H. symmetry. induction evs as [|e evs IH]; [reflexivity|].
  cbn in Hq. apply andb_prop in Hq as [He Hq].
  cbn. rewrite (Hpq e He). auto.
Qed.

Lemma languages_in_app evs evs' :
  languages_in (evs ++ evs') = (languages_in evs ++ languages_in evs')%list.
Proof.
  induction evs as [|e evs IH]; [reflexivity|].
  destruct e; cbn; rewrite ?IH; reflexivity.
Qed.

Lemma saved_languages_quiet q w w' evs :
  history w' = (evs ++ history w)%list ->
  forallb q evs = true ->
  (forall e l, q e = true -> e <> ESaveLanguage l) ->
  saved_languages w' = saved_languages w.
Proof.
  intros H Hq Hne. unfold saved_languages. rewrite H, languages_in_app.
  replace (languages_in evs) with (@nil string); [reflexivity|].
  clear H. symmetry. induction evs as [|e evs IH]; [reflexivity|].
  cbn in Hq. apply andb_prop in Hq as [He Hq].
  destruct e; cbn; auto. by destruct (Hne _ lang He).
Qed.

Ltac footprint w :=
  lazymatch goal with
  | |- exists evs, ?h0 = _ /\ _ =>
      let h := eval cbn [history log hold release add_file snd] in h0 in
      let evs := events_above h (history w) in
      exists evs; split; reflexivity
  end.

Lemma prepare_audio_footprint env video w :
  exists evs,
    history (snd (prepare_audio env video w)) = (evs ++ history w)%list
    /\ forallb is_preparation_event evs = true.
Proof.
  unfold_program. cbn.
  blind_branches.
  all: footprint w.
Qed.

Lemma merge_and_save_footprint env rs w :
  exists evs,
    history (snd (merge_and_save env rs w)) = (evs ++ history w)%list
    /\ forallb is_merge_event evs = true.
Proof.
  unfold_program. cbn.
  blind_branches.
  all: footprint w.
Qed.

(** ** The language check *)

(** C1, as stated, fails: with the language configured as zh and a chunk
    detected as English, the invocation returns normally. *)
Lemma configured_zh_detected_en_returns :
  let env := sample_env "zh" true (detects "en") two_chunks in
  WHISPER_LANGUAGE env = "zh"
  /\ (exists r au,
        fst (transcription_of_chunk env "vocal.mp3" 0%float 50%float
               empty_world) = Return (r, au)
        /\ language r = "en")
  /\ fst (transcribe_audio env "vocal.mp3" 0%float 50%float empty_world)
     = Return (adjust_timestamps 0%float sample_alignment).
Proof.
  cbn zeta. split; [reflexivity|]. split.
  - eexists _, _. split; vm_compute; reflexivity.
  - vm_compute. reflexivity.
Qed.

(** C1 (amended).  When the transcription of a chunk returns and its
    language has been handed to [save_language], the invocation raises the
    language error exactly when the detected language is zh and the
    configured one is not: it is raised for a run not configured as zh
    whose chunk is detected as zh, and never for a run configured as zh. *)
Theorem mismatch_raised_iff_zh_detected_but_not_configured
    env a s e w r au :
  fst (transcription_of_chunk env a s e w) = Return (r, au) ->
  save_language env (snd (transcription_of_chunk env a s e w)) (language r)
  = Ok tt ->
  fst (transcribe_audio env a s e w) = Raise ValueError_specify_zh
  <-> language r = "zh" /\ WHISPER_LANGUAGE env <> "zh".
Proof.
  intros Hr Hsave. rewrite transcribe_audio_mismatch. split.
  - intros (r' & au' & Hr' & _ & Hzh & Hcfg).
    rewrite Hr in Hr'. injection Hr' as <- <-. auto.
  - intros [Hzh Hcfg]. exists r, au. auto.
Qed.

Lemma mismatch_raised_iff_zh_detected_but_not_configured_witness :
  fst (transcribe_audio (sample_env "en" true (detects "zh") two_chunks)
         "vocal.mp3" 0%float 50%float empty_world)
  = Raise ValueError_specify_zh.
Proof.
  apply (mismatch_raised_iff_zh_detected_but_not_configured
           (sample_env "en" true (detects "zh") two_chunks)
           "vocal.mp3" 0%float 50%float empty_world
           (mkTranscribeResult "zh" []) []).
  - vm_compute. reflexivity.
  - reflexivity.
  - split; [reflexivity | discriminate].
Defined.

(** C2, as stated, fails: with the language configured as auto and a chunk
    detected as zh, the invocation raises the language error. *)
Lemma configured_auto_detected_zh_raises :
  let env := sample_env "auto" true (detects "zh") two_chunks in
  WHISPER_LANGUAGE env = "auto"
  /\ fst (transcribe_audio env "vocal.mp3" 0%float 50%float empty_world)
     = Raise ValueError_specify_zh.
Proof. cbn zeta. split; [reflexivity | vm_compute; reflexivity]. Qed.

(** C2 (amended).  For a run configured as auto, the language error is
    raised exactly for a chunk whose transcription returns zh (once
    [save_language] has returned); for every other detected language it
    is not raised. *)
Theorem auto_mismatch_iff_zh_detected env a s e w :
  WHISPER_LANGUAGE env = "auto" ->
  fst (transcribe_audio env a s e w) = Raise ValueError_specify_zh
  <-> exists r au,
      fst (transcription_of_chunk env a s e w) = Return (r, au)
      /\ save_language env (snd (transcription_of_chunk env a s e w))
                       (language r) = Ok tt
      /\ language r = "zh".
Proof.
  intros Hauto. rewrite transcribe_audio_mismatch. split.
  - intros (r & au & Hr & Hsave & Hzh & _). eauto.
  - intros (r & au & Hr & Hsave & Hzh). exists r, au.
    repeat split; auto. rewrite Hauto. discriminate.
Qed.

Lemma auto_mismatch_iff_zh_detected_witness :
  fst (transcribe_audio (sample_env "auto" true (detects "en") two_chunks)
         "vocal.mp3" 0%float 50%float empty_world)
  <> Raise ValueError_specify_zh.
Proof.
  intros H.
  apply (auto_mismatch_iff_zh_detected
           (sample_env "auto" true (detects "en") two_chunks)
           "vocal.mp3" 0%float 50%float empty_world) in H;
    [|reflexivity].
  destruct H as (r & au & Hr & _ & Hzh).
  vm_compute in Hr. injection Hr as <- <-. discriminate.
Defined.

(** ** Model objects *)

(** C6, as stated, fails: on an accelerator, when [model.transcribe]
    raises, the invocation re-raises with the Whisper model still
    referenced. *)
Lemma failed_transcription_keeps_model :
  let env := sample_env "en" true always_fails two_chunks in
  let attempt :=
    transcribe_audio env "vocal.mp3" 0%float 50%float empty_world in
  fst attempt = Raise (External "model.transcribe" "CUDA out of memory")
  /\ live_models empty_world = []
  /\ live_models (snd attempt) = [(WhisperModel, "cuda")].
Proof. cbn zeta. repeat split; vm_compute; reflexivity. Qed.

(** C6 (amended).  When the invocation returns, and when it raises the
    language error, every model object it loaded has been deleted: the
    objects referenced afterwards are those referenced before. *)
Theorem models_deleted_on_return_and_on_mismatch env a s e w :
  (exists result, fst (transcribe_audio env a s e w) = Return result)
  \/ fst (transcribe_audio env a s e w) = Raise ValueError_specify_zh ->
  live_models (snd (transcribe_audio env a s e w)) = live_models w.
Proof.
  intros H. pose proof (transcribe_audio_releases env a s e w) as Hrel.
  destruct H as [[result H] | H]; rewrite H in Hrel; exact Hrel.
Qed.

Lemma models_deleted_on_return_and_on_mismatch_witness :
  live_models
    (snd (transcribe_audio (sample_env "en" true (detects "en") two_chunks)
            "vocal.mp3" 0%float 50%float empty_world))
  = [].
Proof.
  apply (models_deleted_on_return_and_on_mismatch
           (sample_env "en" true (detects "en") two_chunks)
           "vocal.mp3" 0%float 50%float empty_world).
  left. eexists. vm_compute. reflexivity.
Defined.

(** ** Binary64 additions that do not round *)

Lemma iter_pos_comm {A} (f : A -> A) p x :
  SpecFloat.iter_pos f p (f x) = f (SpecFloat.iter_pos f p x).
Proof.
  revert x. induction p as [p IH|p IH|]; intros x; cbn.
  - rewrite !IH. reflexivity.
  - rewrite !IH. reflexivity.
  - reflexivity.
Qed.

Lemma iter_pos_succ {A} (f : A -> A) p x :
  SpecFloat.iter_pos f (Pos.succ p) x = SpecFloat.iter_pos f p (f x).
Proof.
  revert x. induction p as [p IH|p IH|]; intros x.
  - change (SpecFloat.iter_pos f (Pos.succ p)
              (SpecFloat.iter_pos f (Pos.succ p) x)
            = SpecFloat.iter_pos f p (SpecFloat.iter_pos f p (f (f x)))).
    rewrite !IH, !iter_pos_comm. reflexivity.
  - reflexivity.
  - reflexivity.
Qed.

Lemma digits2_pos_bounds p :
  2 ^ (Zpos (digits2_pos p) - 1) <= Zpos p < 2 ^ Zpos (digits2_pos p).
Proof.
  induction p as [p IH|p IH|]; cbn [digits2_pos].
  - rewrite Pos2Z.inj_succ.
    replace (Z.succ (Zpos (digits2_pos p)) - 1) with (Z.succ (Zpos (digits2_pos p) - 1)) by lia.
    rewrite !Z.pow_succ_r by lia. lia.
  - rewrite Pos2Z.inj_succ.
    replace (Z.succ (Zpos (digits2_pos p)) - 1) with (Z.succ (Zpos (digits2_pos p) - 1)) by lia.
    rewrite !Z.pow_succ_r by lia. lia.
  - cbn. lia.
Qed.

(** Two ways of writing one number have their leading bit at the same
    place. *)
Lemma same_value_same_top a i b j :
  0 <= i -> 0 <= j ->
  Zpos a * 2 ^ i = Zpos b * 2 ^ j ->
  Zpos (digits2_pos a) + i = Zpos (digits2_pos b) + j.
Proof.
  intros Hi Hj H.
  pose proof (digits2_pos_bounds a) as [La Ua].
  pose proof (digits2_pos_bounds b) as [Lb Ub].
  assert (forall x dx k y dy l,
             0 <= k -> 0 <= l -> 0 < dx -> 0 < dy ->
             2 ^ (dx - 1) <= x -> y < 2 ^ dy -> x * 2 ^ k = y * 2 ^ l ->
             dx + k <= dy + l) as Hle.
  { intros x dx k y dy l Hk Hl Hdx Hdy Lx Uy E.
    destruct (Z_le_gt_dec (dx + k) (dy + l)) as [|Hgt]; [assumption|exfalso].
    assert (2 ^ (dy + l) <= 2 ^ (dx - 1 + k)) as Hp
        by (apply Z.pow_le_mono_r; lia).
    rewrite !Z.pow_add_r in Hp by lia.
    assert (0 < 2 ^ k) by (apply Z.pow_pos_nonneg; lia).
    assert (0 < 2 ^ l) by (apply Z.pow_pos_nonneg; lia).
    assert (y * 2 ^ l < 2 ^ dy * 2 ^ l) by nia.
    assert (2 ^ (dx - 1) * 2 ^ k <= x * 2 ^ k) by nia.
    lia. }
  assert (Zpos (digits2_pos a) + i <= Zpos (digits2_pos b) + j)
    by (apply (Hle (Zpos a) _ _ (Zpos b)); lia).
  assert (Zpos (digits2_pos b) + j <= Zpos (digits2_pos a) + i)
    by (apply (Hle (Zpos b) _ _ (Zpos a)); lia).
  lia.
Qed.

(** Shifting right as many times as a number has trailing zeros loses
    nothing. *)
Lemma shr_trailing_zeros k m M :
  Zpos M = Zpos m * 2 ^ Zpos k ->
  SpecFloat.iter_pos shr_1 k (Build_shr_record (Zpos M) false false)
  = Build_shr_record (Zpos m) false false.
Proof.
  revert M. induction k as [|k IH] using Pos.peano_ind; intros M H.
  - cbn. destruct M as [M|M|]; try lia.
    assert (M = m) by lia. subst. reflexivity.
  - rewrite iter_pos_succ.
    rewrite Pos2Z.inj_succ, Z.pow_succ_r in H by lia.
    destruct M as [M|M|]; try lia.
    cbn [shr_1 orb]. apply IH. lia.
Qed.

Lemma iter_xO_value M d : Zpos (Pos.iter xO M d) = Zpos M * 2 ^ Zpos d.
Proof.
  induction d as [|d IH] using Pos.peano_ind.
  - cbn. lia.
  - rewrite Pos.iter_succ, Pos2Z.inj_succ, Z.pow_succ_r by lia.
    rewrite Pos2Z.inj_xO, IH. lia.
Qed.

Lemma bounded_canonical m e :
  bounded prec emax m e = true ->
  fexp prec emax (Zpos (digits2_pos m) + e) = e
  /\ e <= emax - prec
  /\ emin64 <= e.
Proof.
  unfold bounded, canonical_mantissa. intros H.
  apply andb_prop in H as [H1 H2].
  apply Z.eqb_eq in H1. apply Z.leb_le in H2.
  repeat split; try assumption.
  rewrite <- H1. unfold fexp, SpecFloat.emin, emin64, prec, emax. lia.
Qed.

(** A number that a canonical float represents exactly, given at a lower
    exponent, is rounded to that float. *)
Lemma binary_round_aux_exact sx m e M E :
  bounded prec emax m e = true ->
  E <= e ->
  Zpos M = Zpos m * 2 ^ (e - E) ->
  binary_round_aux prec emax sx (Zpos M) E loc_Exact = S754_finite sx m e.
Proof.
  intros Hb HE HM.
  destruct (bounded_canonical m e Hb) as (Hcan & Hmax & _).
  assert (fexp prec emax (Zpos (digits2_pos M) + E) = e) as Hfexp.
  { etransitivity; [|exact Hcan]. f_equal.
    replace (Zpos (digits2_pos M) + E)
      with (Zpos (digits2_pos M) + 0 + E) by lia.
    rewrite (same_value_same_top M 0 m (e - E)); lia. }
  unfold binary_round_aux, shr_fexp.
  cbn [Zdigits2 shr_record_of_loc]. rewrite Hfexp.
  assert (shr (Build_shr_record (Zpos M) false false) E (e - E)
          = (Build_shr_record (Zpos m) false false, e)) as ->.
  { unfold shr. destruct (e - E) as [|k|k] eqn:Hk; try lia.
    - rewrite Z.pow_0_r, Z.mul_1_r in HM. injection HM as ->.
      f_equal. lia.
    - rewrite (shr_trailing_zeros k m M HM). f_equal. lia. }
  cbn [shr_m loc_of_shr_record round_nearest_even Zdigits2 shr_record_of_loc].
  rewrite Hcan, Z.sub_diag. cbn [shr shr_m].
  apply Z.leb_le in Hmax. rewrite Hmax. reflexivity.
Qed.

Lemma binary_round_exact sx m e M E :
  bounded prec emax m e = true ->
  emin64 <= E ->
  Zpos M * 2 ^ (E - emin64) = Zpos m * 2 ^ (e - emin64) ->
  binary_round prec emax sx M E = S754_finite sx m e.
Proof.
  intros Hb HE HM.
  destruct (bounded_canonical m e Hb) as (Hcan & Hmax & Hmin).
  assert (fexp prec emax (Zpos (digits2_pos M) + E) = e) as Hfexp.
  { etransitivity; [|exact Hcan]. f_equal.
    pose proof (same_value_same_top M (E - emin64) m (e - emin64)) as Htop.
    lia. }
  unfold binary_round. rewrite Hfexp. unfold shl_align.
  destruct (e - E) as [|k|k] eqn:Hk.
  - apply binary_round_aux_exact; [assumption | lia |].
    assert (E = e) as -> by lia.
    rewrite Z.sub_diag, Z.pow_0_r, Z.mul_1_r.
    apply Z.mul_cancel_r in HM; [assumption|].
    apply Z.pow_nonzero; lia.
  - apply binary_round_aux_exact; [assumption | lia |].
    replace (e - emin64) with ((e - E) + (E - emin64)) in HM by lia.
    rewrite Z.pow_add_r, Z.mul_assoc in HM by lia.
    apply Z.mul_cancel_r in HM; [assumption|].
    apply Z.pow_nonzero; lia.
  - apply binary_round_aux_exact; [assumption | lia |].
    rewrite Z.sub_diag, Z.pow_0_r, Z.mul_1_r, iter_xO_value.
    replace (E - emin64) with (Zpos k + (e - emin64)) in HM by lia.
    rewrite Z.pow_add_r, Z.mul_assoc in HM by lia.
    apply Z.mul_cancel_r in HM; [assumption|].
    apply Z.pow_nonzero; lia.
Qed.

Lemma shl_align_value m e E :
  emin64 <= E -> E <= e ->
  Zpos (fst (shl_align m e E)) * 2 ^ (E - emin64)
  = Zpos m * 2 ^ (e - emin64).
Proof.
  intros Hmin HE. unfold shl_align.
  destruct (E - e) as [|k|k] eqn:Hk; cbn [fst]; try lia.
  - assert (E = e) as -> by lia. reflexivity.
  - rewrite iter_xO_value.
    replace (e - emin64) with (Zpos k + (E - emin64)) by lia.
    rewrite Z.pow_add_r by lia. lia.
Qed.

Lemma pow2_pos k : 0 <= k -> 0 < 2 ^ k.
Proof. intros. apply Z.pow_pos_nonneg; lia. Qed.

(** The canonical representation of a value is unique. *)
Lemma canonical_unique m e m' e' :
  bounded prec emax m e = true ->
  bounded prec emax m' e' = true ->
  Zpos m * 2 ^ (e - emin64) = Zpos m' * 2 ^ (e' - emin64) ->
  m = m' /\ e = e'.
Proof.
  intros Hb Hb' H.
  destruct (bounded_canonical m e Hb) as (_ & _ & Hmin).
  pose proof (binary_round_exact false m' e' m e Hb' Hmin H) as H1.
  assert (binary_round prec emax false m e = S754_finite false m e) as H2
      by (apply binary_round_exact; auto).
  rewrite H1 in H2. injection H2 as -> ->. auto.
Qed.

(** On canonical floats: when the sum of [x] and [y] is exact, taking [y]
    away from it gives [x] back, unless [x] is the negative zero. *)
Lemma SF_exact_round_trip x y a b :
  valid_binary x = true ->
  valid_binary y = true ->
  valid_binary (SF64add x y) = true ->
  units_of x = Some a ->
  units_of y = Some b ->
  units_of (SF64add x y) = Some (a + b) ->
  x <> S754_zero true ->
  SF64sub (SF64add x y) y = x.
Proof.
  intros Vx Vy Vz Ux Uy Uz Hx.
  destruct x as [sx| |  |sx mx ex]; try discriminate.
  - (* x is +0 *)
    destruct sx; [congruence|].
    destruct y as [sy| | |sy my ey]; try discriminate.
    + destruct sy; reflexivity.
    + cbn. rewrite Z.sub_diag. reflexivity.
  - destruct y as [sy| | |sy my ey]; try discriminate.
    + reflexivity.
    + cbn [valid_binary] in Vx, Vy.
      destruct (bounded_canonical mx ex Vx) as (_ & _ & Hminx).
      destruct (bounded_canonical my ey Vy) as (_ & _ & Hminy).
      cbn [units_of] in Ux, Uy. injection Ux as <-. injection Uy as <-.
      pose proof (pow2_pos (ex - emin64) ltac:(lia)) as Px.
      pose proof (pow2_pos (ey - emin64) ltac:(lia)) as Py.
      destruct (SF64add (S754_finite sx mx ex) (S754_finite sy my ey))
        as [sz| | |sz mz ez] eqn:Hz; try discriminate.
      * (* the sum is zero *)
        cbn [units_of] in Uz. injection Uz as Uz.
        cbn [SF64sub SFsub].
        assert (sx = negb sy
                /\ Zpos my * 2 ^ (ey - emin64) = Zpos mx * 2 ^ (ex - emin64))
          as [-> Hv].
        { destruct sx, sy; cbn [cond_Zopp negb] in *; split;
            try reflexivity; nia. }
        destruct (canonical_unique my ey mx ex Vy Vx Hv) as [-> ->].
        reflexivity.
      * (* the sum is finite *)
        cbn [valid_binary] in Vz.
        destruct (bounded_canonical mz ez Vz) as (_ & _ & Hminz).
        cbn [units_of] in Uz. injection Uz as Uz.
        cbn [SF64sub SFsub].
        set (E := Z.min ez ey).
        assert (emin64 <= E) as HE by (unfold E; lia).
        pose proof (shl_align_value mz ez E HE ltac:(unfold E; lia)) as Hsz.
        pose proof (shl_align_value my ey E HE ltac:(unfold E; lia)) as Hsy.
        pose proof (pow2_pos (E - emin64) ltac:(lia)) as PE.
        assert ((cond_Zopp sz (Zpos (fst (shl_align mz ez E)))
                 - cond_Zopp sy (Zpos (fst (shl_align my ey E))))
                * 2 ^ (E - emin64)
                = cond_Zopp sx (Zpos mx) * 2 ^ (ex - emin64)) as Hd.
        { rewrite Z.mul_sub_distr_r.
          assert (forall s p q k l,
                     Zpos p * 2 ^ k = Zpos q * 2 ^ l ->
                     cond_Zopp s (Zpos p) * 2 ^ k
                     = cond_Zopp s (Zpos q) * 2 ^ l) as Hs.
          { intros [] p q k l Hpq; cbn [cond_Zopp]; lia. }
          rewrite (Hs sz _ _ _ _ Hsz), (Hs sy _ _ _ _ Hsy). lia. }
        destruct (cond_Zopp sz (Zpos (fst (shl_align mz ez E)))
                  - cond_Zopp sy (Zpos (fst (shl_align my ey E))))
          as [|M|M]; cbn [binary_normalize].
        -- destruct sx; cbn [cond_Zopp] in Hd; lia.
        -- assert (sx = false) as ->
              by (destruct sx; [cbn [cond_Zopp] in Hd; lia | reflexivity]).
           apply binary_round_exact; auto.
        -- assert (sx = true) as ->
              by (destruct sx; [reflexivity | cbn [cond_Zopp] in Hd; lia]).
           apply binary_round_exact; auto.
           cbn [cond_Zopp] in Hd. lia.
Qed.

(** When [t + start] is exact and [t] is not the negative zero,
    [(t + start) - start] is [t]. *)
Lemma exact_sum_round_trip t start :
  exact_sum t start ->
  t <> neg_zero ->
  PrimFloat.sub (PrimFloat.add t start) start = t.
Proof.
  unfold exact_sum, units. intros H Ht.
  destruct (units_of (Prim2SF t)) as [a|] eqn:Ua; [|contradiction].
  destruct (units_of (Prim2SF start)) as [b|] eqn:Ub; [|contradiction].
  destruct (units_of (Prim2SF (t + start))) as [c|] eqn:Uc; [|contradiction].
  subst c.
  apply Prim2SF_inj. rewrite FloatAxioms.sub_spec, FloatAxioms.add_spec.
  rewrite FloatAxioms.add_spec in Uc.
  apply (SF_exact_round_trip _ _ a b); auto using Prim2SF_valid.
  - rewrite <- FloatAxioms.add_spec. apply Prim2SF_valid.
  - intros Hz. apply Ht.
    rewrite <- (SF2Prim_Prim2SF t), Hz. reflexivity.
Qed.

(** ** The timestamp shift *)

Lemma adjust_word_shifted start wd :
  shifted_word start wd (adjust_word start wd).
Proof.
  unfold shifted_word, adjust_word. cbn.
  destruct (w_start wd), (w_end wd); auto.
Qed.

Lemma adjust_words_shifted start wds :
  Forall2 (shifted_word start) wds (map (adjust_word start) wds).
Proof.
  induction wds as [|wd wds IH]; constructor; auto using adjust_word_shifted.
Qed.

Lemma adjust_segment_shifted start s :
  shifted_segment start s (adjust_segment start s).
Proof.
  unfold shifted_segment, adjust_segment. cbn.
  auto using adjust_words_shifted.
Qed.

Lemma recoverable_round_trip start t :
  recoverable start t ->
  PrimFloat.sub (PrimFloat.add t start) start = t.
Proof. intros [Hexact Hnz]. exact (exact_sum_round_trip t start Hexact Hnz). Qed.

Lemma unshift_adjust_word start wd :
  Forall (recoverable start) (word_timestamps wd) ->
  unshift_word start (adjust_word start wd) = wd.
Proof.
  destruct wd as [txt [t1|] [t2|] sc]; unfold word_timestamps; cbn;
    intros H; unfold unshift_word, adjust_word; cbn.
  - inversion_clear H as [|? ? H1 H']. inversion_clear H' as [|? ? H2 _].
    rewrite (recoverable_round_trip _ _ H1), (recoverable_round_trip _ _ H2).
    reflexivity.
  - inversion_clear H as [|? ? H1 _].
    rewrite (recoverable_round_trip _ _ H1). reflexivity.
  - inversion_clear H as [|? ? H2 _].
    rewrite (recoverable_round_trip _ _ H2). reflexivity.
  - reflexivity.
Qed.

Lemma unshift_adjust_words start wds :
  Forall (recoverable start) (flat_map word_timestamps wds) ->
  map (unshift_word start) (map (adjust_word start) wds) = wds.
Proof.
  induction wds as [|wd wds IH]; cbn; intros H; [reflexivity|].
  apply Forall_app in H as [Hwd Hwds].
  rewrite unshift_adjust_word, IH; auto.
Qed.

Lemma unshift_adjust_segment start s :
  Forall (recoverable start) (segment_timestamps s) ->
  unshift_segment start (adjust_segment start s) = s.
Proof.
  destruct s as [t1 t2 txt wds]. unfold segment_timestamps. cbn.
  intros H. inversion_clear H as [|? ? H1 H']. inversion_clear H' as [|? ? H2 Hw].
  unfold unshift_segment, adjust_segment. cbn.
  rewrite (recoverable_round_trip _ _ H1), (recoverable_round_trip _ _ H2),
    unshift_adjust_words; auto.
Qed.

(** C3, as stated, fails on its round trip: timestamps are binary64, and
    0.1 + 50.0 - 50.0 is 0.10000000000000142, not 0.1. *)
Lemma round_trip_loses_one_tenth :
  unshift_timestamps 50%float (adjust_timestamps 50%float starts_at_one_tenth)
  <> starts_at_one_tenth.
Proof.
  intros H.
  apply (f_equal (fun r => match segments r with
                           | s :: _ => PrimFloat.eqb (seg_start s) one_tenth
                           | [] => false
                           end)) in H.
  vm_compute in H. discriminate.
Qed.

(** C3 (amended).  The shift of lines 101-109 keeps the segments and the
    words in order and in number; it adds the chunk start, by one binary64
    addition, to the start and end of every segment and to every word
    timestamp that is defined; a word without a timestamp still has none,
    and text and score are untouched.  Subtracting the chunk start from
    the output recovers the input whenever none of those additions
    rounded or overflowed (each binary64 sum is the real sum) and no
    timestamp is the negative zero. *)
Theorem adjust_timestamps_shifts start r :
  Forall2 (shifted_segment start)
          (segments r) (segments (adjust_timestamps start r))
  /\ (Forall (recoverable start) (timestamps r) ->
      unshift_timestamps start (adjust_timestamps start r) = r).
Proof.
  destruct r as [segs]. unfold timestamps. cbn. split.
  - induction segs as [|s segs IH]; constructor;
      auto using adjust_segment_shifted.
  - unfold unshift_timestamps, adjust_timestamps. cbn. intros H. f_equal.
    induction segs as [|s segs IH]; [reflexivity|].
    cbn [flat_map] in H. apply Forall_app in H as [Hs Hsegs].
    cbn [map]. rewrite unshift_adjust_segment, IH; auto.
Qed.

Ltac recoverable_by_computation :=
  split;
  [ vm_compute; reflexivity
  | let H := fresh in
    intros H; apply (f_equal Prim2SF) in H; vm_compute in H; discriminate ].

Lemma adjust_timestamps_shifts_witness :
  unshift_timestamps 50%float (adjust_timestamps 50%float sample_alignment)
  = sample_alignment.
Proof.
  apply (adjust_timestamps_shifts 50%float sample_alignment).
  repeat (constructor; [recoverable_by_computation|]). constructor.
Defined.

(** The two conditions are about different things: adding 50.0 to the
    negative zero is exact, and the round trip still gives the positive
    zero; adding 50.0 to 0.1 rounds. *)
Example negative_zero_is_exact_but_not_recovered :
  exact_sum neg_zero 50%float
  /\ PrimFloat.sub (PrimFloat.add neg_zero 50%float) 50%float <> neg_zero.
Proof.
  split; [vm_compute; reflexivity|].
  intros H. apply (f_equal Prim2SF) in H. vm_compute in H. discriminate.
Qed.

Example adding_fifty_to_one_tenth_rounds : ~ exact_sum one_tenth 50%float.
Proof. vm_compute. discriminate. Qed.

(** The specification's scenario: chunk start 50, word "hi" from 1.0 to
    1.5. *)
Example adjust_word_hi :
  adjust_word 50%float (mkWord "hi" (Some 1%float) (Some 1.5%float) None)
  = mkWord "hi" (Some 51%float) (Some 51.5%float) None.
Proof. reflexivity. Qed.

(** ** The coordinator *)

Lemma transcribe_done env video w :
  CLEANED_CHUNKS ∈ files w ->
  transcribe env video w =
  (Return tt,
   log (ERprint msg_results_exist) (log (EPathExists CLEANED_CHUNKS) w)).
Proof.
  intros H. unfold transcribe, bind, path_exists.
  rewrite bool_decide_eq_true_2 by exact H. reflexivity.
Qed.

Lemma transcribe_not_done env video w :
  CLEANED_CHUNKS ∉ files w ->
  transcribe env video w =
  (do (audio_file, segs) <- prepare_audio env video;
   do all_results <- transcribe_chunks env audio_file segs [];
   merge_and_save env all_results) (log (EPathExists CLEANED_CHUNKS) w).
Proof.
  intros H. unfold transcribe, path_exists. unfold bind at 1.
  rewrite bool_decide_eq_false_2 by exact H. reflexivity.
Qed.

Lemma prepare_audio_quiet p env video w :
  (forall e, is_preparation_event e = true -> p e = false) ->
  occurrences p (snd (prepare_audio env video w)) = occurrences p w.
Proof.
  intros Hp. destruct (prepare_audio_footprint env video w) as (evs & H & Hq).
  exact (occurrences_quiet p _ _ _ _ H Hq Hp).
Qed.

Lemma merge_and_save_quiet p env rs w :
  (forall e, is_merge_event e = true -> p e = false) ->
  occurrences p (snd (merge_and_save env rs w)) = occurrences p w.
Proof.
  intros Hp. destruct (merge_and_save_footprint env rs w) as (evs & H & Hq).
  exact (occurrences_quiet p _ _ _ _ H Hq Hp).
Qed.

Ltac other_kind :=
  let e := fresh "e" in
  intros e; destruct e as [[]| | | | | | | | | | | | | | | | | | | |];
  cbn; congruence.

(** C4.  When an invocation of the chunk loop raises, [transcribe] raises
    that very error and ends in the world the failing invocation left: no
    further chunk is started, and [save_results] has not been called. *)
Theorem failing_chunk_aborts_run
    env video w audio_file segs w1 pre s e post rs wk err wf :
  CLEANED_CHUNKS ∉ files w ->
  prepare_audio env video (log (EPathExists CLEANED_CHUNKS) w)
  = (Return (audio_file, segs), w1) ->
  segs = (pre ++ (s, e) :: post)%list ->
  transcribe_chunks env audio_file pre [] w1 = (Return rs, wk) ->
  transcribe_audio env audio_file s e wk = (Raise err, wf) ->
  transcribe env video w = (Raise err, wf)
  /\ occurrences is_save_results wf = occurrences is_save_results w
  /\ occurrences is_chunk_start wf
     = (occurrences is_chunk_start w + length pre + 1)%nat.
Proof.
  intros Hnew Hprep -> Hpre Hfail. split; [|split].
  - rewrite transcribe_not_done by exact Hnew. unfold bind at 1.
    rewrite Hprep. unfold bind at 1.
    rewrite (transcribe_chunks_stops env audio_file pre s e post [] w1 rs wk
               err wf Hpre Hfail).
    reflexivity.
  - pose proof (transcribe_audio_never_saves env audio_file s e wk) as H3.
    pose proof (transcribe_chunks_never env audio_file is_save_results
                  (transcribe_audio_never_saves env) pre [] w1) as H2.
    pose proof (prepare_audio_quiet is_save_results env video
                  (log (EPathExists CLEANED_CHUNKS) w)) as H1.
    rewrite Hfail in H3. rewrite Hpre in H2. rewrite Hprep in H1.
    cbn [snd] in *. rewrite H3, H2, H1; [reflexivity | other_kind].
  - pose proof (transcribe_audio_starts_once env audio_file s e wk) as H3.
    pose proof (transcribe_chunks_each env audio_file is_chunk_start
                  (transcribe_audio_starts_once env) pre [] w1 rs wk Hpre)
      as H2.
    pose proof (prepare_audio_quiet is_chunk_start env video
                  (log (EPathExists CLEANED_CHUNKS) w)) as H1.
    rewrite Hfail in H3. rewrite Hprep in H1.
    cbn [snd] in *. rewrite H3, H2, H1; [|other_kind].
    change (occurrences is_chunk_start (log (EPathExists CLEANED_CHUNKS) w))
      with (occurrences is_chunk_start w).
    lia.
Qed.

Ltac by_computation :=
  lazymatch goal with
  | |- ?x ∉ ?X =>
      apply (bool_decide_eq_false_1 (x ∈ X)); vm_compute; reflexivity
  | |- ?x ∈ ?X =>
      apply (bool_decide_eq_true_1 (x ∈ X)); vm_compute; reflexivity
  | |- _ => vm_compute; reflexivity
  end.

Lemma failing_chunk_aborts_run_witness :
  transcribe failing_env "video.mp4" empty_world
  = (Raise (External "model.transcribe" "CUDA out of memory"), failing_wf)
  /\ occurrences is_save_results failing_wf
     = occurrences is_save_results empty_world
  /\ occurrences is_chunk_start failing_wf
     = (occurrences is_chunk_start empty_world
        + length [(0%float, 50%float)] + 1)%nat.
Proof.
  apply (failing_chunk_aborts_run failing_env "video.mp4" empty_world
           sample_vocal two_chunks failing_w1
           [(0%float, 50%float)] 50%float 100%float []
           [adjust_timestamps 0%float sample_alignment] failing_wk
           (External "model.transcribe" "CUDA out of memory") failing_wf).
  all: by_computation.
Defined.

(** ** Runs that complete *)

Lemma completed_run_wrote_transcript env video w w' :
  transcribe env video w = (Return tt, w') -> CLEANED_CHUNKS ∈ files w'.
Proof.
  destruct (decide (CLEANED_CHUNKS ∈ files w)) as [Hin|Hout].
  - rewrite transcribe_done by exact Hin. intros [= <-]. exact Hin.
  - rewrite transcribe_not_done by exact Hout. unfold bind at 1.
    destruct (prepare_audio env video _) as [[[a segs]|ex] w1];
      [|discriminate].
    unfold bind at 1.
    destruct (transcribe_chunks env a segs [] w1) as [[rs|ex] w2];
      [|discriminate].
    unfold_program. blind_branches; intros [= <-].
    cbn. set_solver.
Qed.

(** C5.  When the final transcript exists, be it from before or because
    an earlier run completed, [transcribe] tests for it, reports that the
    results exist and returns: nothing else happens, so no separation, no
    splitting and no model call. *)
Theorem existing_transcript_skips_run env video w :
  CLEANED_CHUNKS ∈ files w
  \/ (exists env0 video0 w0, transcribe env0 video0 w0 = (Return tt, w)) ->
  transcribe env video w
  = (Return tt,
     log (ERprint msg_results_exist) (log (EPathExists CLEANED_CHUNKS) w))
  /\ occurrences is_model_work (snd (transcribe env video w))
     = occurrences is_model_work w.
Proof.
  intros H.
  assert (CLEANED_CHUNKS ∈ files w) as Hin.
  { destruct H as [H | (env0 & video0 & w0 & H)]; [exact H|].
    exact (completed_run_wrote_transcript env0 video0 w0 w H). }
  rewrite transcribe_done by exact Hin. split; reflexivity.
Qed.

Lemma existing_transcript_skips_run_witness :
  let env := sample_env "en" true (detects "en") two_chunks in
  let w := snd (transcribe env "video.mp4" empty_world) in
  transcribe env "video.mp4" w
  = (Return tt,
     log (ERprint msg_results_exist) (log (EPathExists CLEANED_CHUNKS) w))
  /\ occurrences is_model_work (snd (transcribe env "video.mp4" w))
     = occurrences is_model_work w.
Proof.
  cbn zeta.
  apply (existing_transcript_skips_run
           (sample_env "en" true (detects "en") two_chunks) "video.mp4"
           (snd (transcribe (sample_env "en" true (detects "en") two_chunks)
                   "video.mp4" empty_world))).
  right.
  exists (sample_env "en" true (detects "en") two_chunks), "video.mp4",
    empty_world.
  vm_compute. reflexivity.
Defined.

(** ** Per-chunk work *)

(** C8, as stated, fails: in a run of two chunks the capability of the
    machine is queried, and the configuration derived from it, twice. *)
Lemma capability_queried_for_each_of_two_chunks :
  let env := sample_env "en" true english_then_french two_chunks in
  fst (transcribe env "video.mp4" empty_world) = Return tt
  /\ occurrences is_capability_query empty_world = 0%nat
  /\ occurrences is_capability_query
       (snd (transcribe env "video.mp4" empty_world)) = 2%nat.
Proof. cbn zeta. repeat split; vm_compute; reflexivity. Qed.

(** C8 (amended).  The inference configuration is derived at the start of
    every invocation of [transcribe_audio]: a run that completes queries
    the capability of the machine once per chunk of its plan. *)
Theorem capability_queried_once_per_chunk
    env video w audio_file segs w1 w' :
  CLEANED_CHUNKS ∉ files w ->
  prepare_audio env video (log (EPathExists CLEANED_CHUNKS) w)
  = (Return (audio_file, segs), w1) ->
  transcribe env video w = (Return tt, w') ->
  occurrences is_capability_query w'
  = (occurrences is_capability_query w + length segs)%nat.
Proof.
  intros Hnew Hprep Hrun.
  rewrite transcribe_not_done in Hrun by exact Hnew.
  unfold bind at 1 in Hrun. rewrite Hprep in Hrun. unfold bind at 1 in Hrun.
  destruct (transcribe_chunks env audio_file segs [] w1) as [[rs|ex] w2]
    eqn:Hloop; [|discriminate].
  pose proof (merge_and_save_quiet is_capability_query env rs w2) as H3.
  rewrite Hrun in H3. cbn [snd] in H3. rewrite H3 by other_kind.
  rewrite (transcribe_chunks_each env audio_file is_capability_query
             (transcribe_audio_queries_capability_once env)
             segs [] w1 rs w2 Hloop).
  pose proof (prepare_audio_quiet is_capability_query env video
                (log (EPathExists CLEANED_CHUNKS) w)) as H1.
  rewrite Hprep in H1. cbn [snd] in H1. rewrite H1 by other_kind.
  reflexivity.
Qed.

Lemma capability_queried_once_per_chunk_witness :
  let env := sample_env "en" true english_then_french two_chunks in
  occurrences is_capability_query
    (snd (transcribe env "video.mp4" empty_world))
  = (occurrences is_capability_query empty_world + length two_chunks)%nat.
Proof.
  cbn zeta.
  apply (capability_queried_once_per_chunk
           (sample_env "en" true english_then_french two_chunks)
           "video.mp4" empty_world sample_vocal two_chunks
           (snd (prepare_audio
                   (sample_env "en" true english_then_french two_chunks)
                   "video.mp4"
                   (log (EPathExists CLEANED_CHUNKS) empty_world)))).
  all: by_computation.
Defined.

(** ** The persisted language *)

Lemma transcribe_audio_return_detects env a s e w res w' :
  transcribe_audio env a s e w = (Return res, w') ->
  exists r au, fst (transcription_of_chunk env a s e w) = Return (r, au).
Proof.
  rewrite transcribe_audio_phases.
  destruct (transcription_of_chunk env a s e w) as [[[r au]|ex] w1].
  - eauto.
  - discriminate.
Qed.

Lemma transcribe_chunks_saved_languages env a segs acc w :
  saved_languages (snd (transcribe_chunks env a segs acc w))
  = (saved_languages w ++ detected_languages env a segs w)%list.
Proof.
  revert acc w. induction segs as [|[s e] segs IH]; intros acc w.
  - cbn. by rewrite app_nil_r.
  - cbn [transcribe_chunks detected_languages]. unfold bind.
    pose proof (transcribe_audio_saves_its_language env a s e w) as H.
    destruct (transcribe_audio env a s e w) as [[res|ex] w1]; cbn [snd] in *.
    + rewrite IH, H, <- app_assoc. reflexivity.
    + rewrite H, app_nil_r. reflexivity.
Qed.

Lemma transcribe_chunks_detects_all env a segs acc w rs w' :
  transcribe_chunks env a segs acc w = (Return rs, w') ->
  length (detected_languages env a segs w) = length segs.
Proof.
  revert acc w. induction segs as [|[s e] segs IH]; intros acc w H.
  - reflexivity.
  - cbn [transcribe_chunks detected_languages] in *. unfold bind in H.
    destruct (transcribe_audio env a s e w) as [[res|ex] w1] eqn:Hinv;
      [|discriminate].
    destruct (transcribe_audio_return_detects env a s e w res w1 Hinv)
      as (r & au & ->).
    cbn. f_equal. exact (IH _ _ H).
Qed.

(** C9, as stated, fails: in a run of two chunks detected as English and
    French, [save_language] is called twice, once inside each invocation,
    and what it is given last is the language of the last chunk. *)
Lemma language_saved_for_each_of_two_chunks :
  let env := sample_env "en" true english_then_french two_chunks in
  fst (transcribe env "video.mp4" empty_world) = Return tt
  /\ saved_languages (snd (transcribe env "video.mp4" empty_world))
     = ["en"; "fr"].
Proof. cbn zeta. split; vm_compute; reflexivity. Qed.

(** C9 (amended).  The detected language is handed to [save_language]
    inside every invocation of [transcribe_audio], right after that
    chunk's transcription, with that chunk's own language: over a run the
    saved languages are exactly the languages detected by the chunks, in
    plan order, one per chunk when the run completes; the merge and save
    step persists none. *)
Theorem language_saved_by_each_chunk env video w audio_file segs w1 :
  CLEANED_CHUNKS ∉ files w ->
  prepare_audio env video (log (EPathExists CLEANED_CHUNKS) w)
  = (Return (audio_file, segs), w1) ->
  saved_languages (snd (transcribe env video w))
  = (saved_languages w ++ detected_languages env audio_file segs w1)%list
  /\ (fst (transcribe env video w) = Return tt ->
      length (detected_languages env audio_file segs w1) = length segs).
Proof.
  intros Hnew Hprep.
  rewrite transcribe_not_done by exact Hnew.
  unfold bind at 1 3. rewrite Hprep. unfold bind at 1 2.
  pose proof (transcribe_chunks_saved_languages env audio_file segs [] w1)
    as Hloop.
  pose proof (transcribe_chunks_detects_all env audio_file segs [] w1)
    as Hall.
  destruct (transcribe_chunks env audio_file segs [] w1) as [[rs|ex] w2];
    cbn [snd] in Hloop.
  - split; [|intros _; exact (Hall rs w2 eq_refl)].
    destruct (merge_and_save_footprint env rs w2) as (evs & H & Hq).
    rewrite (saved_languages_quiet _ _ _ _ H Hq).
    2: { intros ev l Hev ->. discriminate. }
    rewrite Hloop. f_equal.
    destruct (prepare_audio_footprint env video
                (log (EPathExists CLEANED_CHUNKS) w)) as (evs1 & H1 & Hq1).
    rewrite Hprep in H1. cbn [snd] in H1.
    rewrite (saved_languages_quiet _ _ _ _ H1 Hq1).
    2: { intros ev l Hev ->. discriminate. }
    reflexivity.
  - cbn [fst snd]. split; [|discriminate].
    rewrite Hloop. f_equal.
    destruct (prepare_audio_footprint env video
                (log (EPathExists CLEANED_CHUNKS) w)) as (evs1 & H1 & Hq1).
    rewrite Hprep in H1. cbn [snd] in H1.
    rewrite (saved_languages_quiet _ _ _ _ H1 Hq1).
    2: { intros ev l Hev ->. discriminate. }
    reflexivity.
Qed.

Lemma language_saved_by_each_chunk_witness :
  let env := sample_env "en" true english_then_french two_chunks in
  let w1 := snd (prepare_audio env "video.mp4"
                   (log (EPathExists CLEANED_CHUNKS) empty_world)) in
  saved_languages (snd (transcribe env "video.mp4" empty_world))
  = (saved_languages empty_world
     ++ detected_languages env sample_vocal two_chunks w1)%list
  /\ (fst (transcribe env "video.mp4" empty_world) = Return tt ->
      length (detected_languages env sample_vocal two_chunks w1)
      = length two_chunks).
Proof.
  cbn zeta.
  apply (language_saved_by_each_chunk
           (sample_env "en" true english_then_french two_chunks)
           "video.mp4" empty_world sample_vocal two_chunks).
  all: by_computation.
Defined.

(** ** Separation *)

Lemma transcribe_audio_never_separates env a s e w :
  occurrences is_demucs_call (snd (transcribe_audio env a s e w)) =
  occurrences is_demucs_call w.
Proof.
  unfold_program. machine env.
  all: blind_branches.
  all: reflexivity.
Qed.

Lemma split_and_transcribe_never_separates env a w :
  occurrences is_demucs_call (snd (split_and_transcribe env a w)) =
  occurrences is_demucs_call w.
Proof.
  unfold split_and_transcribe, call. unfold bind at 1.
  destruct (split_audio env w a) as [segs|what]; [|reflexivity].
  unfold bind at 1.
  pose proof (transcribe_chunks_never env a is_demucs_call
                (transcribe_audio_never_separates env) segs []
                (log (ESplitAudio a) w)) as Hloop.
  destruct (transcribe_chunks env a segs [] _) as [[rs|ex] w2];
    cbn [snd] in Hloop.
  - rewrite merge_and_save_quiet by other_kind. exact Hloop.
  - exact Hloop.
Qed.



(** X14.  Without the background track the separation runs, once. *)
Lemma missing_background_runs_separation env video w raw_audio :
  CLEANED_CHUNKS ∉ files w ->
  convert_video_to_audio env (log (EPathExists CLEANED_CHUNKS) w) video
  = Ok raw_audio ->
  background_path env ∉ files w ->
  occurrences is_demucs_call (snd (transcribe env video w))
  = S (occurrences is_demucs_call w).
Proof.
  intros Hnew Hconv Hbg.
  rewrite transcribe_not_done by exact Hnew.
  pose proof (split_and_transcribe_never_separates env (vocal_path env)) as H.
  unfold split_and_transcribe, prepare_audio, background_path, vocal_path
    in *.
  unfold demucs_outputs, bind, call, path_exists, modify, rprint, emit, ret
    in *.
  rewrite Hconv. cbn [files log].
  rewrite bool_decide_eq_false_2 by exact Hbg.
  destruct (demucs_main env _ _ _ _ _) as [[]|what]; [|reflexivity].
  match goal with
  | |- context [split_audio env ?W _] => specialize (H W)
  end.
  destruct (split_audio env _ _); exact H.
Qed.

Lemma missing_background_runs_separation_witness :
  occurrences is_demucs_call
    (snd (transcribe english_env "video.mp4" empty_world))
  = S (occurrences is_demucs_call empty_world).
Proof.
  apply (missing_background_runs_separation english_env "video.mp4"
           empty_world "output/audio/raw_full_audio.wav").
  all: by_computation.
Defined.

(** * Further properties of one invocation *)

(** ** What stays referenced when a call raises *)

Lemma transcribe_audio_leaves env a s e w :
  match transcribe_audio env a s e w with
  | (Raise (External callee _), w') =>
      live_models w'
      = (left_referenced (device_name (capability env)) callee
         ++ live_models w)%list
  | _ => True
  end.
Proof.
  unfold_program. unfold device_name, capability. machine env.
  all: blind_branches.
  all: try exact I.
  all: cbn [live_models log hold release]; rewrite ?remove_first_head;
    reflexivity.
Qed.

(** X2.  When a call raises inside an invocation, the model objects left
    referenced are decided by which call it was: the Whisper model for the
    calls between its loading and its deletion, the alignment model for
    [whisperx.align], none for the others. *)
Theorem failing_call_decides_what_stays env a s e w callee what w' :
  transcribe_audio env a s e w = (Raise (External callee what), w') ->
  live_models w'
  = (left_referenced (device_name (capability env)) callee
     ++ live_models w)%list.
Proof.
  intros H. pose proof (transcribe_audio_leaves env a s e w) as Hl.
  rewrite H in Hl. exact Hl.
Qed.

Lemma failing_call_decides_what_stays_witness :
  live_models failing_wf
  = (left_referenced (device_name (capability failing_env))
       "model.transcribe" ++ live_models failing_wk)%list.
Proof.
  apply (failing_call_decides_what_stays failing_env sample_vocal
           50%float 100%float failing_wk "model.transcribe"
           "CUDA out of memory" failing_wf).
  vm_compute. reflexivity.
Defined.

Lemma left_referenced_at_most_one device callee :
  (length (left_referenced device callee) <= 1)%nat.
Proof.
  unfold left_referenced.
  destruct (bool_decide _); [cbn; lia|].
  destruct (String.eqb _ _); cbn; lia.
Qed.

(** ** The temporary file *)

Lemma transcribe_audio_temporary_file env a s e w :
  match transcribe_audio env a s e w with
  | (Return _, w') | (Raise ValueError_specify_zh, w') =>
      occurrences is_temporary_file w' = S (occurrences is_temporary_file w)
      /\ occurrences is_unlink w' = S (occurrences is_unlink w)
  | (Raise (External callee _), w') =>
      if String.eqb callee "subprocess.run"
         || String.eqb callee "librosa.load"
      then occurrences is_temporary_file w'
           = S (occurrences is_temporary_file w)
           /\ occurrences is_unlink w' = occurrences is_unlink w
      else True
  end.
Proof.
  unfold_program. machine env.
  all: blind_branches.
  all: try exact I.
  all: split; reflexivity.
Qed.

(** X3.  The temporary file is created with [delete=False] and removed only
    after [librosa.load]: when [ffmpeg] or [librosa.load] raises, the
    invocation has created a temporary file and never removes it. *)
Theorem temporary_file_left_when_cut_fails env a s e w callee what w' :
  transcribe_audio env a s e w = (Raise (External callee what), w') ->
  callee = "subprocess.run" \/ callee = "librosa.load" ->
  occurrences is_temporary_file w' = S (occurrences is_temporary_file w)
  /\ occurrences is_unlink w' = occurrences is_unlink w.
Proof.
  intros H Hc. pose proof (transcribe_audio_temporary_file env a s e w) as Ht.
  rewrite H in Ht. destruct Hc as [-> | ->]; exact Ht.
Qed.

Lemma temporary_file_left_when_cut_fails_witness :
  let env := with_failing_ffmpeg english_env in
  let w' := snd (transcribe_audio env sample_vocal 0%float 50%float
                   empty_world) in
  occurrences is_temporary_file w'
  = S (occurrences is_temporary_file empty_world)
  /\ occurrences is_unlink w' = occurrences is_unlink empty_world.
Proof.
  cbn zeta.
  apply (temporary_file_left_when_cut_fails
           (with_failing_ffmpeg english_env) sample_vocal
           0%float 50%float empty_world "subprocess.run"
           "ffmpeg returned non-zero exit status 1").
  - vm_compute. reflexivity.
  - left. reflexivity.
Defined.

(** An invocation that returns, or that raises the language error, has
    created one temporary file and removed one. *)
Theorem temporary_file_removed_on_return env a s e w res w' :
  transcribe_audio env a s e w = (Return res, w') ->
  occurrences is_temporary_file w' = S (occurrences is_temporary_file w)
  /\ occurrences is_unlink w' = S (occurrences is_unlink w).
Proof.
  intros H. pose proof (transcribe_audio_temporary_file env a s e w) as Ht.
  rewrite H in Ht. exact Ht.
Qed.

(** ** The result of an invocation *)

Lemma after_transcription_returns env device s r au w res w' :
  after_transcription env device s r au w = (Return res, w') ->
  exists wa aligned,
    align env wa (raw_segments r) au device = Ok aligned
    /\ res = adjust_timestamps s aligned.
Proof.
  unfold_program. cbn.
  destruct (String.eqb (WHISPER_LANGUAGE env) "zh"); cbn.
  all: branches; try discriminate.
  all: intros [= <- <-]; eauto.
Qed.

Lemma transcribe_audio_returns_shift env a s e w res w' :
  transcribe_audio env a s e w = (Return res, w') ->
  shift_of_alignment env (s, e) res.
Proof.
  rewrite transcribe_audio_phases.
  destruct (transcription_of_chunk env a s e w) as [[[r au]|ex] w1].
  - unfold try_except.
    destruct (after_transcription env _ s r au w1) as [[res'|ex] w2] eqn:H.
    + intros [= <- <-].
      destruct (after_transcription_returns _ _ _ _ _ _ _ _ H)
        as (wa & aligned & Hal & ->).
      exists r, au, wa, aligned. auto.
    + unfold log_and_reraise, bind, rprint, emit, raise. discriminate.
  - unfold log_and_reraise, bind, rprint, emit, raise. discriminate.
Qed.

Ltac destruct_units :=
  repeat match goal with u : unit |- _ => destruct u end.

Lemma transcription_of_chunk_anatomy env a s e w r au w1 :
  transcription_of_chunk env a s e w = (Return (r, au), w1) ->
  exists tmp wt,
    librosa_load env
      (log (EFfmpeg a s (PrimFloat.sub e s) tmp) (log ENamedTemporaryFile wt))
      tmp = Ok au
    /\ model_transcribe env (transcription_world a s e tmp wt) au
         (batch_size (inference_config (capability env))) = Ok r
    /\ w1 = transcribed_world (device_name (capability env))
              (batch_size (inference_config (capability env)))
              (transcription_world a s e tmp wt).
Proof.
  unfold_program.
  unfold transcription_world, transcribed_world, device_name,
    inference_config, capability.
  cbn.
  destruct (cuda_is_available env); cbn;
    destruct (String.eqb (WHISPER_LANGUAGE env) "zh"); cbn.
  all: branches; try discriminate.
  all: intros [= <- <- <-]; destruct_units.
  all: eexists _, _; repeat split; eassumption.
Qed.

Lemma after_transcription_anatomy env device s r au w1 res w' :
  after_transcription env device s r au w1 = (Return res, w') ->
  exists aligned,
    align env (alignment_world device r w1) (raw_segments r) au device
    = Ok aligned
    /\ res = adjust_timestamps s aligned
    /\ w' = aligned_world device (alignment_world device r w1).
Proof.
  unfold_program. unfold alignment_world, aligned_world. cbn.
  destruct (String.eqb (WHISPER_LANGUAGE env) "zh"); cbn.
  all: branches; try discriminate.
  all: intros [= <- <-]; destruct_units; eauto.
Qed.

(** An invocation that returns: the transcription of lines 20-86 returned
    [r] for the audio [au], the aligner was called on the raw segments of
    [r] and on [au] once the language of [r] was saved and its alignment
    model loaded, and what is returned is the aligner's answer moved by
    the start of the chunk. *)
Lemma transcribe_audio_return_anatomy env a s e w res w' :
  transcribe_audio env a s e w = (Return res, w') ->
  exists r au w1 aligned,
    transcription_of_chunk env a s e w = (Return (r, au), w1)
    /\ align env (alignment_world (device_name (capability env)) r w1)
         (raw_segments r) au (device_name (capability env)) = Ok aligned
    /\ res = adjust_timestamps s aligned
    /\ w' = aligned_world (device_name (capability env))
              (alignment_world (device_name (capability env)) r w1).
Proof.
  rewrite transcribe_audio_phases.
  destruct (transcription_of_chunk env a s e w) as [[[r au]|ex] w1].
  - unfold try_except.
    destruct (after_transcription env _ s r au w1) as [[res'|ex] w2] eqn:H.
    + intros [= <- <-].
      destruct (after_transcription_anatomy _ _ _ _ _ _ _ _ H)
        as (aligned & Hal & -> & ->).
      exists r, au, w1, aligned. auto.
    + unfold log_and_reraise, bind, rprint, emit, raise. discriminate.
  - unfold log_and_reraise, bind, rprint, emit, raise. discriminate.
Qed.

(** X5.  What an invocation returns is the answer of the aligner, called
    on the raw segments that [model.transcribe] returned for this chunk,
    on the audio that [librosa.load] returned for it and on the selected
    device, in the world where the detected language has been saved and
    its alignment model loaded, with its timestamps moved by the start of
    the chunk. *)
Theorem returned_result_is_shifted_alignment env a s e w res w' :
  transcribe_audio env a s e w = (Return res, w') ->
  exists tmp wt r au aligned,
    let device := device_name (capability env) in
    let batch := batch_size (inference_config (capability env)) in
    let wm := transcription_world a s e tmp wt in
    librosa_load env
      (log (EFfmpeg a s (PrimFloat.sub e s) tmp) (log ENamedTemporaryFile wt))
      tmp = Ok au
    /\ model_transcribe env wm au batch = Ok r
    /\ align env (alignment_world device r (transcribed_world device batch wm))
         (raw_segments r) au device = Ok aligned
    /\ res = adjust_timestamps s aligned.
Proof.
  intros H.
  destruct (transcribe_audio_return_anatomy _ _ _ _ _ _ _ H)
    as (r & au & w1 & aligned & Hr & Hal & -> & _).
  destruct (transcription_of_chunk_anatomy _ _ _ _ _ _ _ _ Hr)
    as (tmp & wt & Hl & Hm & ->).
  exists tmp, wt, r, au, aligned. cbn zeta. auto.
Qed.

(** X4.  An invocation that returns ends with these effects, in this
    order, after [model.transcribe] returned [r] in the world [wm]:
    [model.transcribe], deletion of the Whisper model, [empty_cache],
    [save_language] with the language of [r], loading of the alignment
    model for the language of [r], [align], [empty_cache], deletion of
    the alignment model.  The first [empty_cache] follows the deletion of
    its model; the second precedes it. *)
Theorem returning_invocation_ends_in_order env a s e w res w' :
  transcribe_audio env a s e w = (Return res, w') ->
  exists r au wm,
    let device := device_name (capability env) in
    let batch := batch_size (inference_config (capability env)) in
    model_transcribe env wm au batch = Ok r
    /\ history w'
       = EDel AlignModel :: EEmptyCache :: EAlign device
         :: ELoadAlignModel (language r) device
         :: ESaveLanguage (language r)
         :: EEmptyCache :: EDel WhisperModel
         :: EModelTranscribe batch :: history wm.
Proof.
  intros H.
  destruct (transcribe_audio_return_anatomy _ _ _ _ _ _ _ H)
    as (r & au & w1 & aligned & Hr & _ & _ & ->).
  destruct (transcription_of_chunk_anatomy _ _ _ _ _ _ _ _ Hr)
    as (tmp & wt & _ & Hm & ->).
  exists r, au, (transcription_world a s e tmp wt). cbn zeta.
  split; [exact Hm | reflexivity].
Qed.

Lemma returned_result_is_shifted_alignment_witness :
  exists tmp wt r au aligned,
    let device := device_name (capability english_env) in
    let batch := batch_size (inference_config (capability english_env)) in
    let wm := transcription_world sample_vocal 50%float 100%float tmp wt in
    librosa_load english_env
      (log (EFfmpeg sample_vocal 50%float
              (PrimFloat.sub 100%float 50%float) tmp)
         (log ENamedTemporaryFile wt))
      tmp = Ok au
    /\ model_transcribe english_env wm au batch = Ok r
    /\ align english_env
         (alignment_world device r (transcribed_world device batch wm))
         (raw_segments r) au device = Ok aligned
    /\ adjust_timestamps 50%float sample_alignment
       = adjust_timestamps 50%float aligned.
Proof.
  apply (returned_result_is_shifted_alignment english_env sample_vocal
           50%float 100%float empty_world
           (adjust_timestamps 50%float sample_alignment)
           (snd (transcribe_audio english_env sample_vocal
                   50%float 100%float empty_world))).
  vm_compute. reflexivity.
Defined.

Lemma returning_invocation_ends_in_order_witness :
  exists r au wm,
    let device := device_name (capability english_env) in
    let batch := batch_size (inference_config (capability english_env)) in
    model_transcribe english_env wm au batch = Ok r
    /\ history (snd (transcribe_audio english_env sample_vocal
                       0%float 50%float empty_world))
       = EDel AlignModel :: EEmptyCache :: EAlign device
         :: ELoadAlignModel (language r) device
         :: ESaveLanguage (language r)
         :: EEmptyCache :: EDel WhisperModel
         :: EModelTranscribe batch :: history wm.
Proof.
  apply (returning_invocation_ends_in_order english_env sample_vocal
           0%float 50%float empty_world
           (adjust_timestamps 0%float sample_alignment)).
  vm_compute. reflexivity.
Defined.

(** ** The language passed to the model *)

Lemma prefix_spec n h :
  String.prefix n h = true <-> exists post, h = n ++ post.
Proof.
  revert h. induction n as [|c n IH]; intros h.
  - split; [intros _; exists h; reflexivity | intros _; by destruct h].
  - destruct h as [|c' h]; cbn.
    + split; [discriminate | intros [post [=]]].
    + destruct (Ascii.ascii_dec c c') as [<-|Hne].
      * rewrite IH. split.
        -- intros [post ->]. eauto.
        -- intros [post [= ->]]. eauto.
      * split; [discriminate|]. intros [post [= -> _]]. by destruct Hne.
Qed.

(** [contains] is Python's substring test. *)
Lemma contains_spec n h :
  contains n h = true <-> exists pre post, h = pre ++ n ++ post.
Proof.
  assert (forall h', contains n h'
                      = String.prefix n h'
                        || match h' with
                           | EmptyString => false
                           | String _ t => contains n t
                           end) as Hunfold by (intros []; reflexivity).
  induction h as [|c h IH]; rewrite Hunfold.
  - rewrite orb_false_r, prefix_spec. split.
    + intros [post ->]. exists EmptyString, post. reflexivity.
    + intros (pre & post & H). destruct pre as [|c pre]; [eauto|discriminate].
  - rewrite orb_true_iff, prefix_spec, IH. split.
    + intros [[post ->] | (pre & post & ->)].
      * exists EmptyString, post. reflexivity.
      * exists (String c pre), post. reflexivity.
    + intros (pre & post & H). destruct pre as [|c' pre].
      * left. eauto.
      * right. injection H as -> ->. eauto.
Qed.

Lemma transcribe_audio_load_language env a s e w :
  Forall (load_model_language_is
            (if contains "auto" (WHISPER_LANGUAGE env) then None
             else Some (WHISPER_LANGUAGE env)))
         (emitted w (snd (transcribe_audio env a s e w))).
Proof.
  unfold_program. machine env.
  all: blind_branches.
  all: read_emitted.
  all: repeat constructor.
Qed.

(** X6.  A configured language that has "auto" anywhere in it makes every
    invocation load the model with no language; any other one is passed
    as it is. *)
Theorem auto_substring_loads_without_language env a s e w :
  Forall (load_model_language_is
            (if contains "auto" (WHISPER_LANGUAGE env) then None
             else Some (WHISPER_LANGUAGE env)))
         (emitted w (snd (transcribe_audio env a s e w)))
  /\ (contains "auto" (WHISPER_LANGUAGE env) = true
      <-> exists pre post, WHISPER_LANGUAGE env = pre ++ "auto" ++ post).
Proof.
  split; [apply transcribe_audio_load_language | apply contains_spec].
Qed.

(** ** The language error *)

Lemma transcribe_audio_mismatch_skips_alignment env a s e w :
  match transcribe_audio env a s e w with
  | (Raise ValueError_specify_zh, w') =>
      occurrences is_alignment w' = occurrences is_alignment w
  | _ => True
  end.
Proof.
  unfold_program. machine env.
  all: blind_branches.
  all: try exact I.
  all: reflexivity.
Qed.

(** X7.  When the language error is raised, zh has already been handed to
    [save_language], and the alignment has not been attempted. *)
Theorem language_error_follows_saving_zh env a s e w w' :
  transcribe_audio env a s e w = (Raise ValueError_specify_zh, w') ->
  saved_languages w' = (saved_languages w ++ ["zh"])%list
  /\ occurrences is_alignment w' = occurrences is_alignment w.
Proof.
  intros H. split.
  - pose proof (transcribe_audio_saves_its_language env a s e w) as Hs.
    destruct (proj1 (transcribe_audio_mismatch env a s e w))
      as (r & au & Hr & _ & Hzh & _).
    { rewrite H. reflexivity. }
    rewrite H, Hr in Hs. cbn [snd] in Hs. rewrite Hs, Hzh. reflexivity.
  - pose proof (transcribe_audio_mismatch_skips_alignment env a s e w) as Ha.
    rewrite H in Ha. exact Ha.
Qed.

Lemma language_error_follows_saving_zh_witness :
  let env := sample_env "auto" true (detects "zh") two_chunks in
  let w' := snd (transcribe_audio env sample_vocal 0%float 50%float
                   empty_world) in
  saved_languages w' = (saved_languages empty_world ++ ["zh"])%list
  /\ occurrences is_alignment w' = occurrences is_alignment empty_world.
Proof.
  cbn zeta.
  apply (language_error_follows_saving_zh
           (sample_env "auto" true (detects "zh") two_chunks) sample_vocal
           0%float 50%float empty_world).
  vm_compute. reflexivity.
Defined.

(** * Further properties of a run *)

(** ** The results of the loop *)

Lemma transcribe_chunks_results env a segs acc w rs w' :
  transcribe_chunks env a segs acc w = (Return rs, w') ->
  exists new,
    rs = (acc ++ new)%list /\ Forall2 (shift_of_alignment env) segs new.
Proof.
  revert acc w. induction segs as [|[s e] segs IH]; intros acc w H.
  - cbn in H. injection H as <- _. exists []. rewrite app_nil_r. auto.
  - cbn [transcribe_chunks] in H. unfold bind in H.
    destruct (transcribe_audio env a s e w) as [[res|ex] w1] eqn:Hinv;
      [|discriminate].
    destruct (IH _ _ H) as (new & -> & Hnew).
    exists (res :: new). rewrite <- app_assoc. split; [reflexivity|].
    constructor; [|exact Hnew].
    exact (transcribe_audio_returns_shift env a s e w res w1 Hinv).
Qed.

Lemma combine_app rs rs' :
  combine (rs ++ rs') = (combine rs ++ combine rs')%list.
Proof. unfold combine. apply flat_map_app. Qed.

(** ** Model objects over a run *)

Lemma prepare_audio_live env video w :
  live_models (snd (prepare_audio env video w)) = live_models w.
Proof. unfold_program. cbn. blind_branches; reflexivity. Qed.

Lemma merge_and_save_live env rs w :
  live_models (snd (merge_and_save env rs w)) = live_models w.
Proof. unfold_program. cbn. blind_branches; reflexivity. Qed.

Lemma transcribe_audio_live_bound env a s e w :
  (length (live_models (snd (transcribe_audio env a s e w)))
   <= S (length (live_models w)))%nat.
Proof.
  pose proof (transcribe_audio_releases env a s e w) as Hrel.
  pose proof (transcribe_audio_leaves env a s e w) as Hl.
  destruct (transcribe_audio env a s e w) as [[res|[|callee what]] w1];
    cbn [fst snd] in *.
  - rewrite Hrel. lia.
  - rewrite Hrel. lia.
  - rewrite Hl, length_app.
    pose proof (left_referenced_at_most_one
                  (device_name (capability env)) callee).
    lia.
Qed.

Lemma transcribe_chunks_live env a segs acc w :
  match transcribe_chunks env a segs acc w with
  | (Return _, w') => live_models w' = live_models w
  | (Raise _, w') =>
      (length (live_models w') <= S (length (live_models w)))%nat
  end.
Proof.
  revert acc w. induction segs as [|[s e] segs IH]; intros acc w.
  - reflexivity.
  - cbn [transcribe_chunks]. unfold bind.
    pose proof (transcribe_audio_releases env a s e w) as Hrel.
    pose proof (transcribe_audio_live_bound env a s e w) as Hb.
    destruct (transcribe_audio env a s e w) as [[res|ex] w1];
      cbn [fst snd] in *.
    + specialize (IH (acc ++ [res])%list w1). rewrite Hrel in IH. exact IH.
    + exact Hb.
Qed.

Lemma transcribe_live env video w :
  match transcribe env video w with
  | (Return _, w') => live_models w' = live_models w
  | (Raise _, w') =>
      (length (live_models w') <= S (length (live_models w)))%nat
  end.
Proof.
  destruct (decide (CLEANED_CHUNKS ∈ files w)) as [Hin|Hout].
  - rewrite transcribe_done by exact Hin. reflexivity.
  - rewrite transcribe_not_done by exact Hout. unfold bind at 1.
    pose proof (prepare_audio_live env video
                  (log (EPathExists CLEANED_CHUNKS) w)) as Hp.
    destruct (prepare_audio env video _) as [[[a segs]|ex] w1];
      cbn [snd log live_models] in Hp.
    + unfold bind at 1.
      pose proof (transcribe_chunks_live env a segs [] w1) as Hloop.
      destruct (transcribe_chunks env a segs [] w1) as [[rs|ex] w2].
      * pose proof (merge_and_save_live env rs w2) as Hm.
        destruct (merge_and_save env rs w2) as [[[]|ex] w3];
          cbn [snd] in Hm; rewrite Hm, Hloop, Hp; [reflexivity | lia].
      * rewrite <- Hp. exact Hloop.
    + rewrite Hp. lia.
Qed.

(** X8.  A run that completes leaves referenced exactly the model objects that
    were referenced before it. *)
Theorem completed_run_releases_models env video w w' :
  transcribe env video w = (Return tt, w') ->
  live_models w' = live_models w.
Proof.
  intros H. pose proof (transcribe_live env video w) as Hl.
  rewrite H in Hl. exact Hl.
Qed.

Lemma completed_run_releases_models_witness :
  live_models (snd (transcribe english_env "video.mp4" empty_world))
  = live_models empty_world.
Proof.
  apply (completed_run_releases_models english_env "video.mp4" empty_world).
  vm_compute. reflexivity.
Defined.

(** X9.  Whatever happens in a run, however many chunks it has, it leaves at
    most one model object referenced on top of those referenced before:
    the loop stops at the first invocation that keeps one. *)
Theorem run_keeps_at_most_one_model env video w :
  (length (live_models (snd (transcribe env video w)))
   <= S (length (live_models w)))%nat.
Proof.
  pose proof (transcribe_live env video w) as Hl.
  destruct (transcribe env video w) as [[r|ex] w']; cbn [snd].
  - rewrite Hl. lia.
  - exact Hl.
Qed.

(** ** What a completed run hands over *)

(** X10.  In a run that completes, every chunk of the plan has a result, in plan
    order, each one an answer of the aligner moved by the start of its
    chunk; [process_transcription] is given the concatenation of their
    segments and [save_results] the table it built. *)
Theorem completed_run_merges_in_plan_order
    env video w audio_file segs w1 w' :
  CLEANED_CHUNKS ∉ files w ->
  prepare_audio env video (log (EPathExists CLEANED_CHUNKS) w)
  = (Return (audio_file, segs), w1) ->
  transcribe env video w = (Return tt, w') ->
  exists rs w2 df,
    transcribe_chunks env audio_file segs [] w1 = (Return rs, w2)
    /\ Forall2 (shift_of_alignment env) segs rs
    /\ process_transcription env w2 (flat_map segments rs) = Ok df
    /\ save_results env
         (log (EProcessTranscription (length (flat_map segments rs))) w2) df
       = Ok tt.
Proof.
  intros Hnew Hprep Hrun.
  rewrite transcribe_not_done in Hrun by exact Hnew.
  unfold bind at 1 in Hrun. rewrite Hprep in Hrun. unfold bind at 1 in Hrun.
  destruct (transcribe_chunks env audio_file segs [] w1) as [[rs|ex] w2]
    eqn:Hloop; [|discriminate].
  destruct (transcribe_chunks_results _ _ _ _ _ _ _ Hloop)
    as (new & -> & Hnewr).
  cbn [app] in *.
  unfold merge_and_save, combine, final_transcript_written, call, modify,
    bind in Hrun.
  destruct (process_transcription env w2 _) as [df|what] eqn:Hpt;
    [|discriminate].
  destruct (save_results env _ df) as [[]|what] eqn:Hsr; [|discriminate].
  exists new, w2, df. auto.
Qed.

Lemma completed_run_merges_in_plan_order_witness :
  exists rs w2 df,
    transcribe_chunks english_env sample_vocal two_chunks []
      (snd (prepare_audio english_env "video.mp4"
              (log (EPathExists CLEANED_CHUNKS) empty_world)))
    = (Return rs, w2)
    /\ Forall2 (shift_of_alignment english_env) two_chunks rs
    /\ process_transcription english_env w2 (flat_map segments rs) = Ok df
    /\ save_results english_env
         (log (EProcessTranscription (length (flat_map segments rs))) w2) df
       = Ok tt.
Proof.
  apply (completed_run_merges_in_plan_order english_env "video.mp4"
           empty_world sample_vocal two_chunks
           (snd (prepare_audio english_env "video.mp4"
                   (log (EPathExists CLEANED_CHUNKS) empty_world)))
           (snd (transcribe english_env "video.mp4" empty_world))).
  all: by_computation.
Defined.

(** ** Loading per chunk *)

Lemma transcribe_audio_loads_once env a s e w :
  occurrences is_load_model (snd (transcribe_audio env a s e w)) =
  S (occurrences is_load_model w).
Proof.
  unfold_program. machine env.
  all: blind_branches.
  all: reflexivity.
Qed.

(** X11.  The Whisper model is loaded again for every chunk: a run that
    completes calls [load_model] as many times as its plan has chunks. *)
Theorem model_loaded_once_per_chunk env video w audio_file segs w1 w' :
  CLEANED_CHUNKS ∉ files w ->
  prepare_audio env video (log (EPathExists CLEANED_CHUNKS) w)
  = (Return (audio_file, segs), w1) ->
  transcribe env video w = (Return tt, w') ->
  occurrences is_load_model w'
  = (occurrences is_load_model w + length segs)%nat.
Proof.
  intros Hnew Hprep Hrun.
  rewrite transcribe_not_done in Hrun by exact Hnew.
  unfold bind at 1 in Hrun. rewrite Hprep in Hrun. unfold bind at 1 in Hrun.
  destruct (transcribe_chunks env audio_file segs [] w1) as [[rs|ex] w2]
    eqn:Hloop; [|discriminate].
  pose proof (merge_and_save_quiet is_load_model env rs w2) as H3.
  rewrite Hrun in H3. cbn [snd] in H3. rewrite H3 by other_kind.
  rewrite (transcribe_chunks_each env audio_file is_load_model
             (transcribe_audio_loads_once env) segs [] w1 rs w2 Hloop).
  pose proof (prepare_audio_quiet is_load_model env video
                (log (EPathExists CLEANED_CHUNKS) w)) as H1.
  rewrite Hprep in H1. cbn [snd] in H1. rewrite H1 by other_kind.
  reflexivity.
Qed.

Lemma model_loaded_once_per_chunk_witness :
  occurrences is_load_model
    (snd (transcribe english_env "video.mp4" empty_world))
  = (occurrences is_load_model empty_world + length two_chunks)%nat.
Proof.
  apply (model_loaded_once_per_chunk english_env "video.mp4" empty_world
           sample_vocal two_chunks
           (snd (prepare_audio english_env "video.mp4"
                   (log (EPathExists CLEANED_CHUNKS) empty_world)))).
  all: by_computation.
Defined.

(** ** A preparation that fails, a plan that is empty *)

(** X12.  When the conversion, the separation or the split raises, [transcribe]
    raises the same error at once: no invocation is started, no model is
    loaded and [save_results] is not called. *)
Theorem failed_preparation_starts_nothing env video w ex w1 :
  CLEANED_CHUNKS ∉ files w ->
  prepare_audio env video (log (EPathExists CLEANED_CHUNKS) w)
  = (Raise ex, w1) ->
  transcribe env video w = (Raise ex, w1)
  /\ occurrences is_chunk_start w1 = occurrences is_chunk_start w
  /\ occurrences is_load_model w1 = occurrences is_load_model w
  /\ occurrences is_save_results w1 = occurrences is_save_results w.
Proof.
  intros Hnew Hprep. split.
  - rewrite transcribe_not_done by exact Hnew. unfold bind at 1.
    rewrite Hprep. reflexivity.
  - pose proof (fun p => prepare_audio_quiet p env video
                           (log (EPathExists CLEANED_CHUNKS) w)) as Hq.
    rewrite Hprep in Hq. cbn [snd] in Hq.
    rewrite !Hq by other_kind. auto.
Qed.

Lemma failed_preparation_starts_nothing_witness :
  let env := with_failing_split english_env in
  let w1 := snd (prepare_audio env "video.mp4"
                   (log (EPathExists CLEANED_CHUNKS) empty_world)) in
  transcribe env "video.mp4" empty_world
  = (Raise (External "split_audio" "No such file or directory"), w1)
  /\ occurrences is_chunk_start w1 = occurrences is_chunk_start empty_world
  /\ occurrences is_load_model w1 = occurrences is_load_model empty_world
  /\ occurrences is_save_results w1
     = occurrences is_save_results empty_world.
Proof.
  cbn zeta.
  apply (failed_preparation_starts_nothing
           (with_failing_split english_env) "video.mp4" empty_world).
  all: by_computation.
Defined.

(** X13.  With an empty plan the run makes no invocation and still goes on to
    the merge: [process_transcription] is given no segment, and when it
    and [save_results] return the run completes. *)
Theorem empty_plan_saves_empty_transcript env video w audio_file w1 df :
  CLEANED_CHUNKS ∉ files w ->
  prepare_audio env video (log (EPathExists CLEANED_CHUNKS) w)
  = (Return (audio_file, []), w1) ->
  process_transcription env w1 [] = Ok df ->
  save_results env (log (EProcessTranscription 0) w1) df = Ok tt ->
  fst (transcribe env video w) = Return tt
  /\ occurrences is_chunk_start (snd (transcribe env video w))
     = occurrences is_chunk_start w
  /\ occurrences is_save_results (snd (transcribe env video w))
     = S (occurrences is_save_results w).
Proof.
  intros Hnew Hprep Hpt Hsr.
  pose proof (fun p => prepare_audio_quiet p env video
                         (log (EPathExists CLEANED_CHUNKS) w)) as Hq.
  rewrite Hprep in Hq. cbn [snd] in Hq.
  assert (transcribe env video w
          = (Return tt,
             add_file CLEANED_CHUNKS
               (log ESaveResults (log (EProcessTranscription 0) w1))))
    as ->.
  { rewrite transcribe_not_done by exact Hnew. unfold bind at 1.
    rewrite Hprep. cbn [transcribe_chunks]. unfold bind, ret.
    unfold merge_and_save, combine, final_transcript_written, call, modify,
      bind. cbn [flat_map length]. rewrite Hpt, Hsr. reflexivity. }
  cbn [fst snd]. split; [reflexivity|]. split.
  - transitivity (occurrences is_chunk_start w1); [reflexivity|].
    rewrite Hq by other_kind. reflexivity.
  - transitivity (S (occurrences is_save_results w1)); [reflexivity|].
    rewrite Hq by other_kind. reflexivity.
Qed.

Lemma empty_plan_saves_empty_transcript_witness :
  let env := sample_env "en" true (detects "en") [] in
  fst (transcribe env "video.mp4" empty_world) = Return tt
  /\ occurrences is_chunk_start (snd (transcribe env "video.mp4" empty_world))
     = occurrences is_chunk_start empty_world
  /\ occurrences is_save_results
       (snd (transcribe env "video.mp4" empty_world))
     = S (occurrences is_save_results empty_world).
Proof.
  cbn zeta.
  apply (empty_plan_saves_empty_transcript
           (sample_env "en" true (detects "en") []) "video.mp4" empty_world
           sample_vocal
           (snd (prepare_audio (sample_env "en" true (detects "en") [])
                   "video.mp4"
                   (log (EPathExists CLEANED_CHUNKS) empty_world)))
           []).
  all: by_computation.
Defined.
